(** * Tackle metrics of the NFL Big Data Bowl 2024 repository

    A shallow embedding of [nfl_bdb24.py] (gap-series builder, contact-frame
    detector, tackle metrics, play-level helpers) and of
    [nflutil.transform_tracking_data], with the properties of the
    specification stated over it.

    Modelling conventions.
    - A pandas [DataFrame] is the list of its rows, in row order; a row is a
      record of the columns the code reads.
    - [frameId], [gameId], [playId], [nflId] are integers ([Z]).
    - A float column holds finite values, represented exactly as rationals
      ([Q]); rounding is not modelled.  Values the code itself can make
      non-finite (the [np.nan] literal, the minimum of an empty selection, a
      weight missing after a left merge, a division by a zero weight sum) are
      [npfloat]s.
    - [np.sqrt] and [np.sin (np.deg2rad _)] are parameters of the development.
    - A raised exception is a value of [exn]; a function that can raise
      returns a [result]. *)

From Stdlib Require Import ZArith QArith Qminmax Qround List String Bool Lia
  Lqa Permutation Sorted.
Import ListNotations.
Open Scope string_scope.
Open Scope list_scope.
Open Scope Z_scope.

(** ** Exceptions *)

Inductive exn : Type :=
| IndexError
    (* pandas [.iloc[0]] on an empty selection:
       "single positional indexer is out-of-bounds" *)
| KeyError (label : Z)
    (* pandas [.loc[label]] with a label absent from the index *)
| ValueError_playDirection (play_direction : string) (game_id play_id : Z)
    (* 'playDirection must be "right". Actual playDirection: "..."
       (gameId: ..., playId: ...)' *)
| ValueError_multi_play (game_list play_list : list Z).
    (* 'track_df passed in contained more than one play.
       gameId: [...], playId: [...]' *)

(** The Python class of an exception. *)
Definition exn_class (e : exn) : string :=
  match e with
  | IndexError => "IndexError"
  | KeyError _ => "KeyError"
  | ValueError_playDirection _ _ _ => "ValueError"
  | ValueError_multi_play _ _ => "ValueError"
  end.

Inductive result (A : Type) : Type :=
| Ok (a : A)
| Raise (e : exn).
Arguments Ok {A} a.
Arguments Raise {A} e.

Definition bind {A B : Type} (c : result A) (k : A -> result B) : result B :=
  match c with
  | Ok a => k a
  | Raise e => Raise e
  end.

Notation "x <- c ;; k" := (bind c (fun x => k))
  (at level 61, c at next level, right associativity).

(** ** Floats that may be non-finite *)

Inductive npfloat : Type :=
| Fin (q : Q)
| PInf
| NInf
| NaN.

Definition Qltb (a b : Q) : bool := negb (Qle_bool b a).

Definition fneg (a : npfloat) : npfloat :=
  match a with
  | Fin q => Fin (- q)%Q
  | PInf => NInf
  | NInf => PInf
  | NaN => NaN
  end.

Definition fadd (a b : npfloat) : npfloat :=
  match a, b with
  | NaN, _ | _, NaN => NaN
  | Fin p, Fin q => Fin (p + q)%Q
  | PInf, NInf | NInf, PInf => NaN
  | PInf, _ | _, PInf => PInf
  | NInf, _ | _, NInf => NInf
  end.

Definition fsub (a b : npfloat) : npfloat := fadd a (fneg b).

(** The infinity whose sign is the sign of [q]; [NaN] at zero. *)
Definition inf_of_sign (q : Q) : npfloat :=
  if Qeq_bool q 0 then NaN else if Qltb 0 q then PInf else NInf.

Definition fmul (a b : npfloat) : npfloat :=
  match a, b with
  | NaN, _ | _, NaN => NaN
  | Fin p, Fin q => Fin (p * q)%Q
  | Fin p, PInf | PInf, Fin p => inf_of_sign p
  | Fin p, NInf | NInf, Fin p => inf_of_sign (- p)%Q
  | PInf, PInf | NInf, NInf => PInf
  | PInf, NInf | NInf, PInf => NInf
  end.

(** numpy's true division: a zero denominator gives an infinity or [nan]
    (with a warning), never an exception. *)
Definition fdiv (a b : npfloat) : npfloat :=
  match a, b with
  | NaN, _ | _, NaN => NaN
  | Fin p, Fin q => if Qeq_bool q 0 then inf_of_sign p else Fin (p / q)%Q
  | Fin _, (PInf | NInf) => Fin 0%Q
  | PInf, Fin q => if Qltb q 0 then NInf else PInf
  | NInf, Fin q => if Qltb q 0 then PInf else NInf
  | (PInf | NInf), (PInf | NInf) => NaN
  end.

(** Comparisons: every comparison with [nan] is false. *)
Definition fleb (a b : npfloat) : bool :=
  match a, b with
  | NaN, _ | _, NaN => false
  | Fin p, Fin q => Qle_bool p q
  | NInf, _ | _, PInf => true
  | _, _ => false
  end.

Definition fltb (a b : npfloat) : bool :=
  match a, b with
  | NaN, _ | _, NaN => false
  | Fin p, Fin q => Qltb p q
  | PInf, _ | _, NInf => false
  | _, _ => true
  end.

(** Python's builtin [max(a, b)]: the first argument unless the second is
    strictly greater. *)
Definition py_max (a b : npfloat) : npfloat := if fltb a b then b else a.

(** [Series.min()]: [nan] on an empty selection, else the least value. *)
Definition series_min (l : list Q) : npfloat :=
  match l with
  | [] => NaN
  | g :: gs => Fin (fold_left (fun m g' => if Qltb g' m then g' else m) gs g)
  end.

(** [Series.sum()]. *)
Definition series_sum (l : list Q) : Q := fold_right Qplus 0%Q l.

(** ** Rows *)

(** One row of the gap series: the columns of [outcome_df]. *)
Module GapSample.
Record t : Type := mk {
  frameId : Z;
  event : option string;
  gap : Q;
  s : Q;
  s_downfield : Q;
  weight : npfloat;
  s_downfield_t : Q;
  weight_t : npfloat;
  dis_t : Q;
  x_t : Q;
  y_t : Q
}.
End GapSample.

(** The series returned by the detector, index
    [['tackleFrameId', 'contactFrameId']]. *)
Module TackleWindow.
Record t : Type := mk {
  tackleFrameId : Z;
  contactFrameId : Z
}.
End TackleWindow.

(** ** Selections *)

(** [.iloc[0]] of a selection. *)
Definition iloc0 {A : Type} (rows : list A) : result A :=
  match rows with
  | r :: _ => Ok r
  | [] => Raise IndexError
  end.

(** [df.event == name]; a null event equals no name. *)
Definition event_is (name : string) (r : GapSample.t) : bool :=
  match GapSample.event r with
  | Some e => String.eqb e name
  | None => false
  end.

Fixpoint insert_by_frameId (r : GapSample.t) (l : list GapSample.t)
  : list GapSample.t :=
  match l with
  | [] => [r]
  | h :: t =>
      if GapSample.frameId r <=? GapSample.frameId h then r :: h :: t
      else h :: insert_by_frameId r t
  end.

(** [.sort_values('frameId', ascending=True)]. *)
Definition sort_values_frameId (l : list GapSample.t) : list GapSample.t :=
  fold_right insert_by_frameId [] l.

(** ** ContactFrameDetector: [_get_tackle_window_data] *)

(** The boolean index of the 3 seconds of frames before the tackle. *)
Definition idx_contact_window (tackle_frame_id : Z) (r : GapSample.t) : bool :=
  (Z.max 1 (tackle_frame_id - 30) <=? GapSample.frameId r)
  && (GapSample.frameId r <? tackle_frame_id).

Definition gap_for_contact_of (tackle_frame_id : Z)
  (gap_hist_df : list GapSample.t) : npfloat :=
  let min_gap :=
    series_min (map GapSample.gap
                    (filter (idx_contact_window tackle_frame_id) gap_hist_df)) in
  py_max (Fin (18 # 10)) min_gap.

(** The rows selected by
    [idx_contact_window & (gap_hist_df.gap <= (gap_for_contact + 1e-5))]. *)
Definition below_threshold (tackle_frame_id : Z) (gap_for_contact : npfloat)
  (r : GapSample.t) : bool :=
  idx_contact_window tackle_frame_id r
  && fleb (Fin (GapSample.gap r)) (fadd gap_for_contact (Fin (1 # 100000))).

(** The threshold search; the source has this block twice, word for word
    (the inner and the outer [else]). *)
Definition contact_by_threshold (tackle_frame_id : Z)
  (gap_hist_df : list GapSample.t) : result Z :=
  let gap_for_contact := gap_for_contact_of tackle_frame_id gap_hist_df in
  contact_data <-
    iloc0 (sort_values_frameId
             (filter (below_threshold tackle_frame_id gap_for_contact)
                     gap_hist_df)) ;;
  Ok (GapSample.frameId contact_data).

Definition _get_tackle_window_data (gap_hist_df : list GapSample.t)
  : result TackleWindow.t :=
  tackle_data <- iloc0 (filter (event_is "tackle") gap_hist_df) ;;
  let tackle_frame_id := GapSample.frameId tackle_data in
  let idx := idx_contact_window tackle_frame_id in
  contact_frame_id <-
    (if (0 <? List.length (filter (fun r => idx r && event_is "first_contact" r)
                             gap_hist_df))%nat
     then
       first_contact_ser <-
         iloc0 (filter (event_is "first_contact") gap_hist_df) ;;
       let gap_at_first_contact := GapSample.gap first_contact_ser in
       if Qltb gap_at_first_contact 3
       then Ok (GapSample.frameId first_contact_ser)
       else contact_by_threshold tackle_frame_id gap_hist_df
     else contact_by_threshold tackle_frame_id gap_hist_df) ;;
  Ok (TackleWindow.mk tackle_frame_id contact_frame_id).

(** ** Input tables *)

Module TrackingFrame.
Record t : Type := mk {
  gameId : Z;
  playId : Z;
  nflId : Z;
  frameId : Z;
  x : Q;
  y : Q;
  s : Q;
  o : Q;
  dir : Q;
  dis : Q;
  event : option string;
  playDirection : string
}.
End TrackingFrame.

Module PlayMetadata.
Record t : Type := mk {
  gameId : Z;
  playId : Z;
  ballCarrierId : Z
}.
End PlayMetadata.

Module TackleAttribution.
Record t : Type := mk {
  gameId : Z;
  playId : Z;
  nflId : Z;
  tackle : Z
}.
End TackleAttribution.

Module PlayerRoster.
Record t : Type := mk {
  nflId : Z;
  weight : Q
}.
End PlayerRoster.

(** ** Merges *)

(** [left.merge(right, how='inner')]: every left row, in order, with each of
    its matching right rows. *)
Definition merge_inner {A B C : Type} (on : A -> B -> bool)
  (combine : A -> B -> C) (left : list A) (right : list B) : list C :=
  flat_map (fun l => map (combine l) (filter (on l) right)) left.

(** [left.merge(right, how='left')]: as above, and a left row without a match
    is kept once, the right columns null. *)
Definition merge_left {A B C : Type} (on : A -> B -> bool)
  (combine : A -> option B -> C) (left : list A) (right : list B) : list C :=
  flat_map (fun l =>
              match filter (on l) right with
              | [] => [combine l None]
              | ms => map (fun m => combine l (Some m)) ms
              end) left.

(** A tracking row with the [weight] column the left merge adds. *)
Definition with_weight (r : TrackingFrame.t) (p : option PlayerRoster.t)
  : TrackingFrame.t * npfloat :=
  (r, match p with
      | Some p => Fin (PlayerRoster.weight p)
      | None => NaN
      end).

Definition add_player_weight (df : list TrackingFrame.t)
  (player_df : list PlayerRoster.t) : list (TrackingFrame.t * npfloat) :=
  merge_left (fun r p => TrackingFrame.nflId r =? PlayerRoster.nflId p)
             with_weight df player_df.

(** ** GapSeriesBuilder and TackleMetricsCalculator *)

Module TackleMetrics.
Record t : Type := mk {
  contactFrameId : Z;
  tackleFrameId : Z;
  frames : Z;
  d_actual : Q;
  d_ideal : Q;
  d_eff : npfloat;
  gap_tackle : Q;
  w_carrier : npfloat;
  w_tackler : npfloat;
  s_downfield_delta : npfloat;
  s_contact : Q
}.
End TackleMetrics.

(** [comp_df.col.loc[label]] on the frame-indexed series.  With a label that
    occurs once this is the scalar of that row; an absent label raises
    [KeyError].  (On a repeated label pandas hands back the sub-series of all
    matches; the embedding reads the first, and the statements about the
    metrics are made for series whose frame ids do not repeat.) *)
Definition loc {A : Type} (col : GapSample.t -> A) (comp_df : list GapSample.t)
  (label : Z) : result A :=
  match filter (fun r => GapSample.frameId r =? label) comp_df with
  | [] => Raise (KeyError label)
  | r :: _ => Ok (col r)
  end.

Section Numpy.

(** [np.sqrt] and [fun d => np.sin (np.deg2rad d)] on finite floats. *)
Variable np_sqrt : Q -> Q.
Variable np_sin_deg : Q -> Q.

(** The row of [outcome_df] made from a ball-carrier row and the tackler
    row of the same frame. *)
Definition outcome_row (bc t : TrackingFrame.t * npfloat) : GapSample.t :=
  let (r, w) := bc in
  let (r_t, w_t) := t in
  {| GapSample.frameId := TrackingFrame.frameId r;
     GapSample.event := TrackingFrame.event r;
     GapSample.gap :=
       np_sqrt ((TrackingFrame.x r - TrackingFrame.x r_t) ^ 2
                + (TrackingFrame.y r - TrackingFrame.y r_t) ^ 2)%Q;
     GapSample.s := TrackingFrame.s r;
     GapSample.s_downfield :=
       (TrackingFrame.s r * np_sin_deg (TrackingFrame.dir r))%Q;
     GapSample.weight := w;
     GapSample.s_downfield_t :=
       (TrackingFrame.s r_t * np_sin_deg (TrackingFrame.dir r_t))%Q;
     GapSample.weight_t := w_t;
     GapSample.dis_t := TrackingFrame.dis r_t;
     GapSample.x_t := TrackingFrame.x r_t;
     GapSample.y_t := TrackingFrame.y r_t |}.

Definition _get_tackle_components_vs_time
  (track_df : list TrackingFrame.t) (play_df : list PlayMetadata.t)
  (tackle_df : list TackleAttribution.t) (player_df : list PlayerRoster.t)
  : result (list GapSample.t) :=
  game_id <- iloc0 (map TrackingFrame.gameId track_df) ;;
  play_id <- iloc0 (map TrackingFrame.playId track_df) ;;
  play_direction <- iloc0 (map TrackingFrame.playDirection track_df) ;;
  if negb (String.eqb play_direction "right")
  then Raise (ValueError_playDirection play_direction game_id play_id)
  else
    let ballcarrier_df :=
      add_player_weight
        (merge_inner
           (fun r p =>
              (TrackingFrame.gameId r =? PlayMetadata.gameId p)
              && (TrackingFrame.playId r =? PlayMetadata.playId p)
              && (TrackingFrame.nflId r =? PlayMetadata.ballCarrierId p))
           (fun r _ => r) track_df play_df)
        player_df in
    let tackler_df :=
      add_player_weight
        (merge_inner
           (fun r k =>
              (TrackingFrame.gameId r =? TackleAttribution.gameId k)
              && (TrackingFrame.playId r =? TackleAttribution.playId k)
              && (TrackingFrame.nflId r =? TackleAttribution.nflId k))
           (fun r _ => r) track_df
           (filter (fun k => TackleAttribution.tackle k =? 1) tackle_df))
        player_df in
    Ok (merge_inner
          (fun bc t =>
             (TrackingFrame.gameId (fst bc) =? TrackingFrame.gameId (fst t))
             && (TrackingFrame.playId (fst bc) =? TrackingFrame.playId (fst t))
             && (TrackingFrame.frameId (fst bc)
                 =? TrackingFrame.frameId (fst t)))
          outcome_row ballcarrier_df tackler_df).

(** Lines 149-206 of [prep_get_tackle_metrics]: the metrics of a gap
    series. *)
Definition tackle_metrics_of (comp_df : list GapSample.t)
  : result TackleMetrics.t :=
  tackle_frame_id_ser <- _get_tackle_window_data comp_df ;;
  let contact_frame_id := TackleWindow.contactFrameId tackle_frame_id_ser in
  let tackle_frame_id := TackleWindow.tackleFrameId tackle_frame_id_ser in
  let tackle_window_frames := tackle_frame_id - contact_frame_id in
  let path_start_frame_id := Z.max 1 (contact_frame_id - 30) in
  let idx_mask_actual := fun r =>
    (path_start_frame_id <? GapSample.frameId r)
    && (GapSample.frameId r <=? contact_frame_id) in
  let d_actual :=
    series_sum (map GapSample.dis_t (filter idx_mask_actual comp_df)) in
  x_contact <- loc GapSample.x_t comp_df contact_frame_id ;;
  x_start <- loc GapSample.x_t comp_df path_start_frame_id ;;
  y_contact <- loc GapSample.y_t comp_df contact_frame_id ;;
  y_start <- loc GapSample.y_t comp_df path_start_frame_id ;;
  let d_ideal :=
    np_sqrt ((x_contact - x_start) ^ 2 + (y_contact - y_start) ^ 2)%Q in
  let d_eff :=
    if Qeq_bool d_actual 0 then NaN else fdiv (Fin d_ideal) (Fin d_actual) in
  w_carrier <- iloc0 (map GapSample.weight comp_df) ;;
  w_tackler <- iloc0 (map GapSample.weight_t comp_df) ;;
  s_downfield_contact <- loc GapSample.s_downfield comp_df contact_frame_id ;;
  let s_downfield_neutral :=
    fdiv (fmul (Fin s_downfield_contact) w_carrier)
         (fadd w_carrier w_tackler) in
  s_downfield_tackle_m1 <-
    loc GapSample.s_downfield comp_df (tackle_frame_id - 1) ;;
  let s_downfield_delta :=
    fsub (Fin s_downfield_tackle_m1) s_downfield_neutral in
  s_contact <- loc GapSample.s comp_df contact_frame_id ;;
  gap_tackle <- loc GapSample.gap comp_df tackle_frame_id ;;
  Ok {| TackleMetrics.contactFrameId := contact_frame_id;
        TackleMetrics.tackleFrameId := tackle_frame_id;
        TackleMetrics.frames := tackle_window_frames;
        TackleMetrics.d_actual := d_actual;
        TackleMetrics.d_ideal := d_ideal;
        TackleMetrics.d_eff := d_eff;
        TackleMetrics.gap_tackle := gap_tackle;
        TackleMetrics.w_carrier := w_carrier;
        TackleMetrics.w_tackler := w_tackler;
        TackleMetrics.s_downfield_delta := s_downfield_delta;
        TackleMetrics.s_contact := s_contact |}.

Definition prep_get_tackle_metrics
  (track_df : list TrackingFrame.t) (play_df : list PlayMetadata.t)
  (tackle_df : list TackleAttribution.t) (player_df : list PlayerRoster.t)
  : result TackleMetrics.t :=
  comp_df <-
    _get_tackle_components_vs_time track_df play_df tackle_df player_df ;;
  tackle_metrics_of comp_df.

End Numpy.

(** ** Play-level helpers *)

(** [Series.unique().tolist()]: the distinct values, in order of first
    appearance. *)
Fixpoint unique (l : list Z) : list Z :=
  match l with
  | [] => []
  | a :: t => a :: filter (fun b => negb (b =? a)) (unique t)
  end.

Definition util_play_contains_tackle (track_df : list TrackingFrame.t)
  : result bool :=
  let game_list := unique (map TrackingFrame.gameId track_df) in
  let play_list := unique (map TrackingFrame.playId track_df) in
  if ((1 <? List.length game_list) || (1 <? List.length play_list))%nat
  then Raise (ValueError_multi_play game_list play_list)
  else
    Ok (0 <? List.length
               (filter (fun r =>
                          match TrackingFrame.event r with
                          | Some e => String.eqb e "tackle"
                          | None => false
                          end) track_df))%nat.

(** ** Direction normalization: [nflutil.transform_tracking_data] *)

Definition FIELD_SIZE_X : Q := 120.
Definition FIELD_SIZE_Y : Q := 533 # 10.

(** Python's [a % 360] on floats: the result takes the sign of the divisor. *)
Definition mod360 (a : Q) : Q := (a - 360 * inject_Z (Qfloor (a / 360)))%Q.

(** The assignments through [out_df.loc[i_left, ...]] on one row. *)
Definition transform_row (r : TrackingFrame.t) : TrackingFrame.t :=
  if String.eqb (TrackingFrame.playDirection r) "left"
  then
    {| TrackingFrame.gameId := TrackingFrame.gameId r;
       TrackingFrame.playId := TrackingFrame.playId r;
       TrackingFrame.nflId := TrackingFrame.nflId r;
       TrackingFrame.frameId := TrackingFrame.frameId r;
       TrackingFrame.x := (FIELD_SIZE_X - TrackingFrame.x r)%Q;
       TrackingFrame.y := (FIELD_SIZE_Y - TrackingFrame.y r)%Q;
       TrackingFrame.s := TrackingFrame.s r;
       TrackingFrame.o := mod360 (TrackingFrame.o r + 180)%Q;
       TrackingFrame.dir := mod360 (TrackingFrame.dir r + 180)%Q;
       TrackingFrame.dis := TrackingFrame.dis r;
       TrackingFrame.event := TrackingFrame.event r;
       TrackingFrame.playDirection := "right" |}
  else r.

(** The frame the caller passed is a shared object: with [inplace] it is
    overwritten and nothing is returned, otherwise it is left as it was and
    the transformed copy is returned.  The pair is (the caller's frame after
    the call, the returned value). *)
Definition transform_tracking_data (track_df : list TrackingFrame.t)
  (inplace : bool) : list TrackingFrame.t * option (list TrackingFrame.t) :=
  if inplace
  then (map transform_row track_df, None)
  else (track_df, Some (map transform_row track_df)).

(** ** Vocabulary of the specification *)

Definition frame_le (a b : GapSample.t) : Prop :=
  GapSample.frameId a <= GapSample.frameId b.

(** The invariant of a gap series in the data model: [frameId] strictly
    increasing along the rows. *)
Definition gap_series_wf (g : list GapSample.t) : Prop :=
  Sorted (fun a b => GapSample.frameId a < GapSample.frameId b) g.

(** The contact-search window [[max(1, tackleFrame - 30), tackleFrame)]. *)
Definition in_window (tackle_frame : Z) (r : GapSample.t) : Prop :=
  Z.max 1 (tackle_frame - 30) <= GapSample.frameId r < tackle_frame.

(** [m] is the minimum gap over the window. *)
Definition window_min_gap (tackle_frame : Z) (g : list GapSample.t) (m : Q)
  : Prop :=
  (exists r, In r g /\ in_window tackle_frame r /\ GapSample.gap r = m)
  /\ forall r, In r g -> in_window tackle_frame r -> (m <= GapSample.gap r)%Q.

(** [c] is a row of the earliest frame within the window whose gap is at most
    [bound]. *)
Definition earliest_within (tackle_frame : Z) (g : list GapSample.t)
  (bound : Q) (c : GapSample.t) : Prop :=
  In c g /\ in_window tackle_frame c /\ (GapSample.gap c <= bound)%Q
  /\ forall r, In r g -> in_window tackle_frame r ->
               (GapSample.gap r <= bound)%Q ->
               GapSample.frameId c <= GapSample.frameId r.

(** The first row of the series with the given event label. *)
Definition first_with_event (name : string) (g : list GapSample.t)
  : option GapSample.t :=
  hd_error (filter (event_is name) g).

(** ** Plays used as examples *)

(** A row of a gap series with the given frame, event, gap and tackler
    columns [dis_t], [x_t], [y_t]; the carrier runs at 5 yd/s, 4 of them
    downfield, and weighs 210 lbs, the tackler 240 lbs. *)
Definition sample (frameId : Z) (event : option string) (gap : Q)
  (dis_t x_t y_t : Q) : GapSample.t :=
  {| GapSample.frameId := frameId;
     GapSample.event := event;
     GapSample.gap := gap;
     GapSample.s := 5;
     GapSample.s_downfield := 4;
     GapSample.weight := Fin 210;
     GapSample.s_downfield_t := 3;
     GapSample.weight_t := Fin 240;
     GapSample.dis_t := dis_t;
     GapSample.x_t := x_t;
     GapSample.y_t := y_t |}.

(** Scenario A: [first_contact] at frame 50 with gap 2.5, [tackle] at 60. *)
Definition play_first_contact_close : list GapSample.t :=
  [ sample 49 None (31 # 10) (4 # 10) 40 20;
    sample 50 (Some "first_contact") (25 # 10) (4 # 10) (404 # 10) 20;
    sample 55 None (12 # 10) (4 # 10) (408 # 10) 20;
    sample 59 None (8 # 10) (3 # 10) (411 # 10) 20;
    sample 60 (Some "tackle") (6 # 10) (3 # 10) (414 # 10) 20 ].

(** Scenario B: as A, with gap 5.0 at [first_contact] and the least gap of
    the window, 1.2, at frame 55. *)
Definition play_first_contact_far : list GapSample.t :=
  [ sample 50 (Some "first_contact") 5 (4 # 10) 40 20;
    sample 53 None (24 # 10) (4 # 10) (404 # 10) 20;
    sample 55 None (12 # 10) (4 # 10) (408 # 10) 20;
    sample 57 None (15 # 10) (3 # 10) (411 # 10) 20;
    sample 60 (Some "tackle") (6 # 10) (3 # 10) (414 # 10) 20 ].

(** Scenario C: no [first_contact]; the gap never gets under 2.3 in the
    window. *)
Definition play_trip : list GapSample.t :=
  [ sample 40 None 4 (4 # 10) 40 20;
    sample 45 None (23 # 10) (4 # 10) (404 # 10) 20;
    sample 50 None (3 # 1) (4 # 10) (408 # 10) 20;
    sample 59 None (26 # 10) (4 # 10) (411 # 10) 20;
    sample 60 (Some "tackle") (25 # 10) (3 # 10) (414 # 10) 20 ].

(** A [first_contact] label at frame 5, gap 2.5, long before the window
    [[30, 60)] of the tackle at frame 60. *)
Definition play_early_first_contact : list GapSample.t :=
  [ sample 5 (Some "first_contact") (25 # 10) (4 # 10) 40 20;
    sample 40 None 1 (4 # 10) (404 # 10) 20;
    sample 60 (Some "tackle") (5 # 10) (3 # 10) (408 # 10) 20 ].

(** The tackle on the first joined frame: no row lies in the window. *)
Definition play_tackle_at_start : list GapSample.t :=
  [ sample 12 (Some "tackle") (4 # 10) (3 # 10) 40 20;
    sample 13 None (3 # 10) (3 # 10) (403 # 10) 20 ].

(** Scenario E: no row carries the [tackle] label. *)
Definition play_no_tackle : list GapSample.t :=
  [ sample 1 None 3 (4 # 10) 40 20;
    sample 2 (Some "first_contact") 1 (4 # 10) (404 # 10) 20;
    sample 3 (Some "out_of_bounds") (5 # 10) (4 # 10) (408 # 10) 20 ].


(** Two [first_contact] rows, at frames 2 and 3, and the same rows with
    those two exchanged. *)
Definition play_two_contacts : list GapSample.t :=
  [ sample 1 None 4 (4 # 10) 40 20;
    sample 2 (Some "first_contact") 2 (4 # 10) (404 # 10) 20;
    sample 3 (Some "first_contact") (25 # 10) (4 # 10) (408 # 10) 20;
    sample 4 None (8 # 10) (3 # 10) (411 # 10) 20;
    sample 5 (Some "tackle") (5 # 10) (3 # 10) (414 # 10) 20 ].

Definition play_two_contacts_reordered : list GapSample.t :=
  [ sample 1 None 4 (4 # 10) 40 20;
    sample 3 (Some "first_contact") (25 # 10) (4 # 10) (408 # 10) 20;
    sample 2 (Some "first_contact") 2 (4 # 10) (404 # 10) 20;
    sample 4 None (8 # 10) (3 # 10) (411 # 10) 20;
    sample 5 (Some "tackle") (5 # 10) (3 # 10) (414 # 10) 20 ].

(** Rows out of frame order: the [first_contact] row of frame 70 comes
    first, a second one lies in the window of the tackle at frame 60. *)
Definition play_rows_out_of_order : list GapSample.t :=
  [ sample 70 (Some "first_contact") 2 (4 # 10) 40 20;
    sample 55 (Some "first_contact") 2 (4 # 10) (404 # 10) 20;
    sample 60 (Some "tackle") (5 # 10) (3 # 10) (408 # 10) 20 ].

(** ** Stand-ins for the numpy functions, used to run the examples *)

(** The square root to six decimals, rounded down; exact at 0. *)
Definition approx_sqrt (q : Q) : Q :=
  Qmake (Z.sqrt (Qfloor (q * 1000000000000)%Q)) 1000000.

(** Bhaskara's rational approximation of the sine of an angle in degrees;
    exact at the multiples of 30 that it meets (0, 30, 90, 150, 180, ...). *)
Definition approx_sin_deg (d : Q) : Q :=
  let a := mod360 d in
  let half := fun h : Q => (4 * h * (180 - h) / (40500 - h * (180 - h)))%Q in
  if Qle_bool a 180 then half a else (- half (a - 180))%Q.

(** ** Tracking data used as examples *)

(** A tracking row of game 2022091100: the player moves at 5 yd/s and has
    covered 0.4 yards since the previous frame. *)
Definition track (playId nflId frameId : Z) (x y dir : Q)
  (event : option string) (playDirection : string) : TrackingFrame.t :=
  {| TrackingFrame.gameId := 2022091100;
     TrackingFrame.playId := playId;
     TrackingFrame.nflId := nflId;
     TrackingFrame.frameId := frameId;
     TrackingFrame.x := x;
     TrackingFrame.y := y;
     TrackingFrame.s := 5;
     TrackingFrame.o := dir;
     TrackingFrame.dir := dir;
     TrackingFrame.dis := 4 # 10;
     TrackingFrame.event := event;
     TrackingFrame.playDirection := playDirection |}.

(** Play 56: carrier 11 and tackler 22 over five frames, [first_contact]
    labelled at frames 2 and 3, [tackle] at frame 5. *)
Definition carrier_56 (f : Z) : TrackingFrame.t :=
  match f with
  | 1 => track 56 11 1 50 20 90 None "right"
  | 2 => track 56 11 2 (505 # 10) 20 90 (Some "first_contact") "right"
  | 3 => track 56 11 3 51 20 90 (Some "first_contact") "right"
  | 4 => track 56 11 4 (515 # 10) 20 90 None "right"
  | _ => track 56 11 5 52 20 90 (Some "tackle") "right"
  end.

Definition tackler_56 (playDirection : string) : list TrackingFrame.t :=
  [ track 56 22 1 54 20 270 None playDirection;
    track 56 22 2 (525 # 10) 20 270 (Some "first_contact") playDirection;
    track 56 22 3 (535 # 10) 20 270 (Some "first_contact") playDirection;
    track 56 22 4 (523 # 10) 20 270 None playDirection;
    track 56 22 5 (525 # 10) 20 270 (Some "tackle") playDirection ].

Definition track_56 : list TrackingFrame.t :=
  map carrier_56 [1; 2; 3; 4; 5] ++ tackler_56 "right".

(** The same rows, the carrier's rows of frames 2 and 3 exchanged. *)
Definition track_56_reordered : list TrackingFrame.t :=
  map carrier_56 [1; 3; 2; 4; 5] ++ tackler_56 "right".

(** The carrier's rows say "right", the tackler's say "left". *)
Definition track_56_mixed_direction : list TrackingFrame.t :=
  map carrier_56 [1; 2; 3; 4; 5] ++ tackler_56 "left".

(** Rows of play 56 followed by rows of play 101 of the same game. *)
Definition track_two_plays : list TrackingFrame.t :=
  [ track 56 11 1 50 20 90 None "right";
    track 56 22 1 54 20 270 None "right";
    track 101 11 1 30 25 90 (Some "tackle") "right";
    track 101 22 1 (305 # 10) 25 270 (Some "tackle") "right" ].

Definition plays_example : list PlayMetadata.t :=
  [ PlayMetadata.mk 2022091100 56 11; PlayMetadata.mk 2022091100 101 11 ].

Definition tackles_example : list TackleAttribution.t :=
  [ TackleAttribution.mk 2022091100 56 22 1;
    TackleAttribution.mk 2022091100 56 33 0;
    TackleAttribution.mk 2022091100 101 22 1 ].

Definition players_example : list PlayerRoster.t :=
  [ PlayerRoster.mk 11 210; PlayerRoster.mk 22 240; PlayerRoster.mk 33 255 ].

(** A row of a play moving left. *)
Definition row_moving_left : TrackingFrame.t :=
  track 56 11 1 10 20 45 None "left".

(** ** The other helpers of [nfl_bdb24.py] and [nflutil.py] *)

(** The plays [nfl_bdb24.py] lists as unusable, as (gameId, playId). *)
Definition BDB24_BAD_PLAYS : list (Z * Z) :=
  [ (2022091102, 4102);
    (2022110609, 4313);
    (2022102000, 2710);
    (2022110608, 2679);
    (2022100600, 2633);
    (2022091107, 2530);
    (2022100905, 1254);
    (2022101600, 376);
    (2022100213, 1806);
    (2022092512, 1299) ].

Definition util_play_contains_qb_slide (track_df : list TrackingFrame.t)
  : result bool :=
  let game_list := unique (map TrackingFrame.gameId track_df) in
  let play_list := unique (map TrackingFrame.playId track_df) in
  if ((1 <? List.length game_list) || (1 <? List.length play_list))%nat
  then Raise (ValueError_multi_play game_list play_list)
  else
    Ok (0 <? List.length
               (filter (fun r =>
                          match TrackingFrame.event r with
                          | Some e => String.eqb e "qb_slide"
                          | None => false
                          end) track_df))%nat.

(** The [event_name] argument of [get_frame_of_event], by its Python type;
    [EventOther] carries [type(event_name).__name__]. *)
Inductive event_name_arg : Type :=
| EventStr (name : string)
| EventList (names : list string)
| EventTuple (names : list string)
| EventOther (type_name : string).

(** A row of the frame [get_frame_of_event] returns: the columns
    [['gameId', 'playId', 'frameId', 'event']]. *)
Module EventFrame.
Record t : Type := mk {
  gameId : Z;
  playId : Z;
  frameId : Z;
  event : option string
}.
End EventFrame.

Definition event_frame_of (r : TrackingFrame.t) : EventFrame.t :=
  {| EventFrame.gameId := TrackingFrame.gameId r;
     EventFrame.playId := TrackingFrame.playId r;
     EventFrame.frameId := TrackingFrame.frameId r;
     EventFrame.event := TrackingFrame.event r |}.

Definition frame_key (r : EventFrame.t) : Z * Z * Z :=
  (EventFrame.gameId r, EventFrame.playId r, EventFrame.frameId r).

Definition key3_eqb (a b : Z * Z * Z) : bool :=
  let '(a1, a2, a3) := a in
  let '(b1, b2, b3) := b in
  (a1 =? b1) && (a2 =? b2) && (a3 =? b3).

(** [.groupby(['gameId', 'playId', 'frameId']).head(1)]: the first row of
    every group, the rows kept in their original order. *)
Fixpoint groupby_head1 (seen : list (Z * Z * Z)) (rows : list EventFrame.t)
  : list EventFrame.t :=
  match rows with
  | [] => []
  | r :: rest =>
      if existsb (key3_eqb (frame_key r)) seen
      then groupby_head1 seen rest
      else r :: groupby_head1 (frame_key r :: seen) rest
  end.

(** [track_df.event.isin(event_name)]; a null event is in no list of
    names. *)
Definition event_isin (names : list string) (r : TrackingFrame.t) : bool :=
  match TrackingFrame.event r with
  | Some e => existsb (String.eqb e) names
  | None => false
  end.

(** [nflutil.get_frame_of_event]; [inl] is the message of the [TypeError]
    raised for an argument that is no str, list or tuple. *)
Definition get_frame_of_event (track_df : list TrackingFrame.t)
  (event_name : event_name_arg) : string + list EventFrame.t :=
  let select := fun names =>
    inr (groupby_head1 []
           (map event_frame_of (filter (event_isin names) track_df))) in
  match event_name with
  | EventStr name => select [name]
  | EventList names => select names
  | EventTuple names => select names
  | EventOther type_name =>
      inl ("Expected event_name input to be of type str, list, or tuple; input was type "
             ++ type_name)%string
  end.

(** Frames with the columns [gameId] and [playId]. *)
Class PlayKeyed (A : Type) : Type := {
  game_of : A -> Z;
  play_of : A -> Z
}.

#[export] Instance TrackingFrame_PlayKeyed : PlayKeyed TrackingFrame.t :=
  {| game_of := TrackingFrame.gameId; play_of := TrackingFrame.playId |}.

#[export] Instance PlayMetadata_PlayKeyed : PlayKeyed PlayMetadata.t :=
  {| game_of := PlayMetadata.gameId; play_of := PlayMetadata.playId |}.

#[export] Instance TackleAttribution_PlayKeyed
  : PlayKeyed TackleAttribution.t :=
  {| game_of := TackleAttribution.gameId;
     play_of := TackleAttribution.playId |}.

Definition key2_eqb (a b : Z * Z) : bool :=
  (fst a =? fst b) && (snd a =? snd b).

(** [nflutil.remove_abnormal_plays]: the rows whose (gameId, playId) is not
    in [bad_play_list], as a new frame. *)
Definition remove_abnormal_plays {A : Type} `{PlayKeyed A} (nfl_df : list A)
  (bad_play_list : list (Z * Z)) : list A :=
  filter (fun r => negb (existsb (key2_eqb (game_of r, play_of r))
                                 bad_play_list)) nfl_df.

(** [nflutil.remove_abnormal_frames]: the rows whose
    (gameId, playId, frameId) is not in [bad_frame_list]. *)
Definition remove_abnormal_frames (track_df : list TrackingFrame.t)
  (bad_frame_list : list (Z * Z * Z)) : list TrackingFrame.t :=
  filter (fun r => negb (existsb
                           (key3_eqb (TrackingFrame.gameId r,
                                      TrackingFrame.playId r,
                                      TrackingFrame.frameId r))
                           bad_frame_list)) track_df.

(** ** Further vocabulary *)

(** The rows of a gap series carry the frames 1, 2, ..., n in this order. *)
Definition frames_from_one (g : list GapSample.t) : Prop :=
  map GapSample.frameId g
  = map Z.of_nat (seq 1 (List.length g)).

(** The row belongs to the play that is moving left or right. *)
Definition direction_known (r : TrackingFrame.t) : Prop :=
  TrackingFrame.playDirection r = "left"
  \/ TrackingFrame.playDirection r = "right".

(** Contact on the first frame of the play: nothing leads up to it. *)
Definition play_no_lead_up : list GapSample.t :=
  [ sample 1 None 1 (4 # 10) 40 20;
    sample 2 (Some "tackle") (5 # 10) (3 # 10) (403 # 10) 20 ].


(** [r] is a tracking row of the ball carrier of its play. *)
Definition is_ball_carrier (track_df : list TrackingFrame.t)
  (play_df : list PlayMetadata.t) (r : TrackingFrame.t) : Prop :=
  In r track_df
  /\ exists p, In p play_df
               /\ TrackingFrame.gameId r = PlayMetadata.gameId p
               /\ TrackingFrame.playId r = PlayMetadata.playId p
               /\ TrackingFrame.nflId r = PlayMetadata.ballCarrierId p.

(** [r] is a tracking row of a player credited with the tackle
    ([tackle == 1]) of its play. *)
Definition is_credited_tackler (track_df : list TrackingFrame.t)
  (tackle_df : list TackleAttribution.t) (r : TrackingFrame.t) : Prop :=
  In r track_df
  /\ exists k, In k tackle_df
               /\ TackleAttribution.tackle k = 1
               /\ TrackingFrame.gameId r = TackleAttribution.gameId k
               /\ TrackingFrame.playId r = TackleAttribution.playId k
               /\ TrackingFrame.nflId r = TackleAttribution.nflId k.

(** [w] is a weight the roster gives the player of row [r]: that of a roster
    row of his, or null when he has none. *)
Definition roster_weight (player_df : list PlayerRoster.t)
  (r : TrackingFrame.t) (w : npfloat) : Prop :=
  (exists p, In p player_df
             /\ PlayerRoster.nflId p = TrackingFrame.nflId r
             /\ w = Fin (PlayerRoster.weight p))
  \/ ((forall p, In p player_df ->
                 PlayerRoster.nflId p <> TrackingFrame.nflId r)
      /\ w = NaN).

(** Two tracking rows of the same frame of the same play. *)
Definition same_frame (a b : TrackingFrame.t) : Prop :=
  TrackingFrame.gameId a = TrackingFrame.gameId b
  /\ TrackingFrame.playId a = TrackingFrame.playId b
  /\ TrackingFrame.frameId a = TrackingFrame.frameId b.

(** Play 56 cut off before the tackle: frames 1 to 4 only. *)
Definition track_56_before_tackle : list TrackingFrame.t :=
  map carrier_56 [1; 2; 3; 4] ++ firstn 4 (tackler_56 "right").

(** Clean inputs for one play: every tracking row is of play
    ([game_id], [play_id]); [play_df] has at most one row per play and
    [tackle_df] at most one credited tackler per play; the roster has one row
    per player; and the rows of each player come in increasing frame
    order. *)
Definition clean_play_inputs (game_id play_id : Z)
  (track_df : list TrackingFrame.t) (play_df : list PlayMetadata.t)
  (tackle_df : list TackleAttribution.t) (player_df : list PlayerRoster.t)
  : Prop :=
  (forall r, In r track_df ->
             TrackingFrame.gameId r = game_id
             /\ TrackingFrame.playId r = play_id)
  /\ NoDup (map (fun p => (PlayMetadata.gameId p, PlayMetadata.playId p))
               play_df)
  /\ NoDup (map (fun k => (TackleAttribution.gameId k,
                           TackleAttribution.playId k))
               (filter (fun k => TackleAttribution.tackle k =? 1) tackle_df))
  /\ NoDup (map PlayerRoster.nflId player_df)
  /\ forall n, Sorted Z.lt
                 (map TrackingFrame.frameId
                      (filter (fun r => TrackingFrame.nflId r =? n)
                              track_df)).

(** Rows out of frame order with the frames the metrics look up: the
    [first_contact] row of frame 70 comes first, a second [first_contact]
    row lies at frame 55, inside the window [[30, 60)] of the tackle at
    frame 60. *)
Definition play_late_label_first : list GapSample.t :=
  [ sample 70 (Some "first_contact") 2 (4 # 10) (416 # 10) 20;
    sample 40 None 4 (4 # 10) 40 20;
    sample 55 (Some "first_contact") 2 (4 # 10) (406 # 10) 20;
    sample 59 None (8 # 10) (3 # 10) (410 # 10) 20;
    sample 60 (Some "tackle") (5 # 10) (3 # 10) (413 # 10) 20 ].

(** ** The join, row by row *)

(** The weights the roster gives the player of a row, in roster order; a
    single null weight when the roster has no row for him. *)
Definition weights_of (player_df : list PlayerRoster.t)
  (r : TrackingFrame.t) : list npfloat :=
  match filter (fun p => TrackingFrame.nflId r =? PlayerRoster.nflId p)
               player_df with
  | [] => [NaN]
  | ms => map (fun m => Fin (PlayerRoster.weight m)) ms
  end.

(** For each tracking row in row order, for each [play_df] row that names
    its player as the ball carrier of its play, the row with each of his
    weights. *)
Definition carrier_rows (track_df : list TrackingFrame.t)
  (play_df : list PlayMetadata.t) (player_df : list PlayerRoster.t)
  : list (TrackingFrame.t * npfloat) :=
  flat_map (fun r =>
    flat_map (fun p =>
      if (TrackingFrame.gameId r =? PlayMetadata.gameId p)
         && (TrackingFrame.playId r =? PlayMetadata.playId p)
         && (TrackingFrame.nflId r =? PlayMetadata.ballCarrierId p)
      then map (pair r) (weights_of player_df r)
      else []) play_df) track_df.

(** For each tracking row in row order, for each [tackle_df] row with
    [tackle == 1] that names its player in its play, the row with each of
    his weights. *)
Definition tackler_rows (track_df : list TrackingFrame.t)
  (tackle_df : list TackleAttribution.t) (player_df : list PlayerRoster.t)
  : list (TrackingFrame.t * npfloat) :=
  flat_map (fun r =>
    flat_map (fun k =>
      if (TackleAttribution.tackle k =? 1)
         && ((TrackingFrame.gameId r =? TackleAttribution.gameId k)
             && (TrackingFrame.playId r =? TackleAttribution.playId k)
             && (TrackingFrame.nflId r =? TackleAttribution.nflId k))
      then map (pair r) (weights_of player_df r)
      else []) tackle_df) track_df.

(** The nested-loop join: for each carrier row in order, for each tackler
    row in order of the same gameId, playId and frameId, one row of the
    series. *)
Definition join_rows (np_sqrt np_sin_deg : Q -> Q)
  (track_df : list TrackingFrame.t) (play_df : list PlayMetadata.t)
  (tackle_df : list TackleAttribution.t) (player_df : list PlayerRoster.t)
  : list GapSample.t :=
  flat_map (fun bc =>
    flat_map (fun t =>
      if (TrackingFrame.gameId (fst bc) =? TrackingFrame.gameId (fst t))
         && (TrackingFrame.playId (fst bc) =? TrackingFrame.playId (fst t))
         && (TrackingFrame.frameId (fst bc)
             =? TrackingFrame.frameId (fst t))
      then [outcome_row np_sqrt np_sin_deg bc t]
      else []) (tackler_rows track_df tackle_df player_df))
    (carrier_rows track_df play_df player_df).

(** Inversion of a chain of binds that returned. *)
Ltac bind_inv H :=
  repeat match type of H with
         | bind ?c _ = Ok _ =>
             let E := fresh "E" in
             destruct c eqn:E; cbn [bind] in H; [|discriminate H]
         end.

(** * Properties *)

(** ** Facts about the numeric layer *)

Lemma Qltb_lt (a b : Q) : Qltb a b = true <-> (a < b)%Q.
Proof.
  unfold Qltb. rewrite negb_true_iff.
  split; intro H.
  - apply Qnot_le_lt. intro Hle. apply Qle_bool_iff in Hle. congruence.
  - destruct (Qle_bool b a) eqn:E; [|reflexivity].
    apply Qle_bool_iff in E. exfalso. exact (Qlt_not_le _ _ H E).
Qed.

Lemma Qltb_ge (a b : Q) : Qltb a b = false <-> (b <= a)%Q.
Proof.
  unfold Qltb. rewrite negb_false_iff. apply Qle_bool_iff.
Qed.

Lemma fold_min_spec (gs : list Q) (g : Q) :
  let m := fold_left (fun m g' => if Qltb g' m then g' else m) gs g in
  (m = g \/ In m gs) /\ (m <= g)%Q /\ Forall (fun x => m <= x)%Q gs.
Proof.
  revert g. induction gs as [|a gs IH]; intro g; simpl.
  - repeat split; [now left | apply Qle_refl | constructor].
  - destruct (Qltb a g) eqn:E.
    + destruct (IH a) as (Hin & Hle & Hall).
      apply Qltb_lt in E.
      repeat split.
      * right. destruct Hin as [->|Hin]; [now left | now right].
      * apply Qle_trans with a; [exact Hle | now apply Qlt_le_weak].
      * constructor; assumption.
    + destruct (IH g) as (Hin & Hle & Hall).
      apply Qltb_ge in E.
      repeat split.
      * destruct Hin as [->|Hin]; [now left | right; now right].
      * exact Hle.
      * constructor; [apply Qle_trans with g; assumption | exact Hall].
Qed.

(** [Series.min()] of a non-empty selection is one of its values and a lower
    bound of all of them. *)
Lemma series_min_spec (l : list Q) :
  l <> [] ->
  exists m, series_min l = Fin m /\ In m l /\ Forall (fun x => m <= x)%Q l.
Proof.
  destruct l as [|g gs]; [congruence|]. intros _.
  destruct (fold_min_spec gs g) as (Hin & Hle & Hall).
  eexists. split; [reflexivity|]. split.
  - destruct Hin as [->|Hin]; [now left | now right].
  - constructor; assumption.
Qed.

(** Python's [max(1.8, m)] on a finite [m] is the larger of the two. *)
Lemma py_max_fin (a m : Q) :
  exists t, py_max (Fin a) (Fin m) = Fin t /\ (t == Qmax a m)%Q.
Proof.
  unfold py_max; simpl. destruct (Qltb a m) eqn:E.
  - exists m. split; [reflexivity|].
    apply Qltb_lt in E. symmetry. apply Q.max_r. now apply Qlt_le_weak.
  - exists a. split; [reflexivity|].
    apply Qltb_ge in E. symmetry. now apply Q.max_l.
Qed.

(** ** Facts about selections *)

Lemma iloc0_hd_error {A : Type} (l : list A) (a : A) :
  hd_error l = Some a -> iloc0 l = Ok a.
Proof. destruct l; simpl; congruence. Qed.

Lemma iloc0_nil {A : Type} (l : list A) :
  l = [] -> iloc0 l = Raise IndexError.
Proof. intros ->. reflexivity. Qed.

Lemma filter_nil_iff {A : Type} (p : A -> bool) (l : list A) :
  filter p l = [] <-> forall a, In a l -> p a = false.
Proof.
  split.
  - intros H a Ha. destruct (p a) eqn:E; [|reflexivity].
    assert (In a (filter p l)) by (apply filter_In; auto).
    rewrite H in *. contradiction.
  - intros H. induction l as [|a l IH]; [reflexivity|]. simpl.
    rewrite (H a (or_introl eq_refl)). apply IH. intros b Hb. apply H. now right.
Qed.

Lemma filter_nonnil_ex {A : Type} (p : A -> bool) (l : list A) :
  filter p l <> [] <-> exists a, In a l /\ p a = true.
Proof.
  split.
  - destruct (filter p l) as [|a t] eqn:E; [congruence|]. intros _.
    exists a. apply filter_In. rewrite E. now left.
  - intros (a & Ha & Hp) E.
    assert (In a (filter p l)) by (apply filter_In; auto).
    rewrite E in *. contradiction.
Qed.

Lemma length_pos_nonnil {A : Type} (l : list A) :
  (0 <? List.length l)%nat = true <-> l <> [].
Proof.
  destruct l; simpl; split; intro H; try congruence; try reflexivity.
  discriminate.
Qed.

Lemma insert_by_frameId_In r l x :
  In x (insert_by_frameId r l) <-> x = r \/ In x l.
Proof.
  induction l as [|h t IH]; simpl.
  - intuition.
  - destruct (GapSample.frameId r <=? GapSample.frameId h); simpl.
    + intuition.
    + rewrite IH. intuition.
Qed.

Lemma sort_values_frameId_In l x :
  In x (sort_values_frameId l) <-> In x l.
Proof.
  induction l as [|a l IH]; simpl; [tauto|].
  rewrite insert_by_frameId_In, IH. intuition.
Qed.

Lemma insert_by_frameId_sorted r l :
  StronglySorted frame_le l -> StronglySorted frame_le (insert_by_frameId r l).
Proof.
  induction 1 as [|h t Hs IH Hall]; simpl.
  - repeat constructor.
  - destruct (GapSample.frameId r <=? GapSample.frameId h) eqn:E.
    + apply Z.leb_le in E. constructor; [constructor; assumption|].
      constructor; [exact E|].
      eapply Forall_impl; [|exact Hall]. unfold frame_le. intros; lia.
    + apply Z.leb_gt in E. constructor; [exact IH|].
      apply Forall_forall. intros x Hx.
      apply insert_by_frameId_In in Hx. destruct Hx as [->|Hx].
      * unfold frame_le; lia.
      * rewrite Forall_forall in Hall. now apply Hall.
Qed.

Lemma sort_values_frameId_sorted l :
  StronglySorted frame_le (sort_values_frameId l).
Proof.
  induction l; simpl; [constructor | now apply insert_by_frameId_sorted].
Qed.

(** The first row of a frame-sorted non-empty selection is one of its rows
    and no row of the selection has a smaller [frameId]. *)
Lemma iloc0_sort_values l :
  l <> [] ->
  exists c, iloc0 (sort_values_frameId l) = Ok c /\ In c l
            /\ forall r, In r l -> GapSample.frameId c <= GapSample.frameId r.
Proof.
  intro Hne.
  pose proof (sort_values_frameId_sorted l) as Hs.
  pose proof (sort_values_frameId_In l) as Hin.
  destruct (sort_values_frameId l) as [|c t] eqn:E.
  - destruct l as [|a l]; [congruence|].
    exfalso. apply (proj2 (Hin a)). now left.
  - exists c. split; [reflexivity|]. split.
    + apply Hin. now left.
    + intros r Hr. apply Hin in Hr. destruct Hr as [->|Hr]; [lia|].
      inversion Hs as [|? ? _ Hall]; subst.
      rewrite Forall_forall in Hall. now apply Hall.
Qed.

(** ** The contact-frame detector *)

Lemma idx_contact_window_iff t r :
  idx_contact_window t r = true <-> in_window t r.
Proof.
  unfold idx_contact_window, in_window.
  rewrite andb_true_iff, Z.leb_le, Z.ltb_lt. tauto.
Qed.

Lemma below_threshold_fin t thr r :
  below_threshold t (Fin thr) r = true <->
  in_window t r /\ (GapSample.gap r <= thr + (1 # 100000))%Q.
Proof.
  unfold below_threshold; simpl.
  rewrite andb_true_iff, idx_contact_window_iff, Qle_bool_iff. tauto.
Qed.

(** With a non-empty window the threshold search returns, and what it returns
    is the earliest in-window frame at or below [max(1.8, minGap) + 1e-5]. *)
Lemma contact_by_threshold_ok t g :
  filter (idx_contact_window t) g <> [] ->
  exists m c,
    window_min_gap t g m
    /\ contact_by_threshold t g = Ok (GapSample.frameId c)
    /\ earliest_within t g (Qmax (18 # 10) m + (1 # 100000))%Q c.
Proof.
  intro Hne.
  destruct (series_min_spec (map GapSample.gap (filter (idx_contact_window t) g)))
    as (m & Hmin & Hin & Hlow).
  { intro E. apply map_eq_nil in E. contradiction. }
  apply in_map_iff in Hin. destruct Hin as (rm & Hgap & Hrm).
  apply filter_In in Hrm. destruct Hrm as [Hrm_in Hrm_w].
  apply idx_contact_window_iff in Hrm_w.
  assert (Hlow' : forall r, In r g -> in_window t r -> (m <= GapSample.gap r)%Q).
  { intros r Hr Hw. rewrite Forall_forall in Hlow. apply Hlow.
    apply in_map. apply filter_In. split; [exact Hr|].
    now apply idx_contact_window_iff. }
  destruct (py_max_fin (18 # 10) m) as (thr & Hthr & Heq).
  assert (Hgfc : gap_for_contact_of t g = Fin thr).
  { unfold gap_for_contact_of. rewrite Hmin. exact Hthr. }
  destruct (iloc0_sort_values (filter (below_threshold t (Fin thr)) g))
    as (c & Hc & Hc_in & Hc_min).
  { apply filter_nonnil_ex. exists rm. split; [exact Hrm_in|].
    apply below_threshold_fin. split; [exact Hrm_w|].
    rewrite Hgap, Heq.
    apply Qle_trans with (Qmax (18 # 10) m); [apply Q.le_max_r|].
    rewrite <- (Qplus_0_r (Qmax (18 # 10) m)) at 1.
    apply Qplus_le_r. discriminate. }
  apply filter_In in Hc_in. destruct Hc_in as [Hc_g Hc_b].
  apply below_threshold_fin in Hc_b. destruct Hc_b as [Hc_w Hc_gap].
  exists m, c. split; [|split].
  - split; [exists rm; auto | exact Hlow'].
  - unfold contact_by_threshold. rewrite Hgfc, Hc. reflexivity.
  - split; [exact Hc_g|]. split; [exact Hc_w|]. split.
    + rewrite <- Heq. exact Hc_gap.
    + intros r Hr Hw Hg. apply Hc_min. apply filter_In. split; [exact Hr|].
      apply below_threshold_fin. split; [exact Hw|]. rewrite Heq. exact Hg.
Qed.

(** With an empty window the threshold search raises [IndexError]. *)
Lemma contact_by_threshold_empty t g :
  filter (idx_contact_window t) g = [] ->
  contact_by_threshold t g = Raise IndexError.
Proof.
  intro He. unfold contact_by_threshold.
  replace (filter _ g) with (@nil GapSample.t); [reflexivity|].
  symmetry. apply filter_nil_iff. intros r Hr.
  unfold below_threshold.
  rewrite (proj1 (filter_nil_iff _ _) He r Hr). reflexivity.
Qed.

(** What the detector does once the first [tackle] row is known. *)
Lemma detector_unfold g tk :
  first_with_event "tackle" g = Some tk ->
  _get_tackle_window_data g =
  (contact_frame_id <-
     (if (0 <? List.length
                 (filter (fun r => idx_contact_window (GapSample.frameId tk) r
                                   && event_is "first_contact" r) g))%nat
      then
        first_contact_ser <- iloc0 (filter (event_is "first_contact") g) ;;
        if Qltb (GapSample.gap first_contact_ser) 3
        then Ok (GapSample.frameId first_contact_ser)
        else contact_by_threshold (GapSample.frameId tk) g
      else contact_by_threshold (GapSample.frameId tk) g) ;;
   Ok (TackleWindow.mk (GapSample.frameId tk) contact_frame_id)).
Proof.
  intro H. unfold _get_tackle_window_data.
  rewrite (iloc0_hd_error _ _ H). reflexivity.
Qed.

(** Under the conditions of the threshold search (no [first_contact] row, or
    the first one at 3 yards or more) the detector's contact frame is the
    result of the threshold search. *)
Lemma detector_threshold_branch g tk :
  first_with_event "tackle" g = Some tk ->
  (first_with_event "first_contact" g = None
   \/ exists fc, first_with_event "first_contact" g = Some fc
                 /\ (3 <= GapSample.gap fc)%Q) ->
  _get_tackle_window_data g =
  (contact_frame_id <- contact_by_threshold (GapSample.frameId tk) g ;;
   Ok (TackleWindow.mk (GapSample.frameId tk) contact_frame_id)).
Proof.
  intros Htk Hfc. rewrite (detector_unfold _ _ Htk).
  destruct (0 <? List.length _)%nat eqn:E; [|reflexivity].
  destruct Hfc as [Hnone | (fc & Hfc & Hgap)].
  - exfalso. apply length_pos_nonnil in E. apply filter_nonnil_ex in E.
    destruct E as (r & Hr & Hp). apply andb_true_iff in Hp.
    unfold first_with_event in Hnone.
    destruct (filter (event_is "first_contact") g) eqn:F; [|discriminate].
    rewrite (proj1 (filter_nil_iff _ _) F r Hr) in Hp. destruct Hp; discriminate.
  - unfold first_with_event in Hfc. rewrite (iloc0_hd_error _ _ Hfc). simpl.
    rewrite (proj2 (Qltb_ge _ _) Hgap). reflexivity.
Qed.

(** C1, as the code has it.  When some [first_contact] row lies inside the
    contact-search window and the gap at the first [first_contact] row of
    the play is under 3 yards, the detector returns that first row's frameId
    as the contactFrameId. *)
Theorem first_contact_in_window_is_contact g tk fc :
  first_with_event "tackle" g = Some tk ->
  (exists r, In r g /\ in_window (GapSample.frameId tk) r
             /\ event_is "first_contact" r = true) ->
  first_with_event "first_contact" g = Some fc ->
  (GapSample.gap fc < 3)%Q ->
  _get_tackle_window_data g =
  Ok (TackleWindow.mk (GapSample.frameId tk) (GapSample.frameId fc)).
Proof.
  intros Htk (r & Hr & Hw & He) Hfc Hgap.
  rewrite (detector_unfold _ _ Htk).
  replace (0 <? List.length _)%nat with true.
  - unfold first_with_event in Hfc. rewrite (iloc0_hd_error _ _ Hfc). simpl.
    rewrite (proj2 (Qltb_lt _ _) Hgap). reflexivity.
  - symmetry. apply length_pos_nonnil. apply filter_nonnil_ex.
    exists r. split; [exact Hr|].
    rewrite (proj2 (idx_contact_window_iff _ _) Hw), He. reflexivity.
Qed.

Lemma first_contact_in_window_is_contact_scenario_A :
  _get_tackle_window_data play_first_contact_close = Ok (TackleWindow.mk 60 50).
Proof.
  apply (first_contact_in_window_is_contact play_first_contact_close
           (sample 60 (Some "tackle") (6 # 10) (3 # 10) (414 # 10) 20)
           (sample 50 (Some "first_contact") (25 # 10) (4 # 10) (404 # 10) 20)).
  - reflexivity.
  - exists (sample 50 (Some "first_contact") (25 # 10) (4 # 10) (404 # 10) 20).
    split; [simpl; tauto|]. split; [unfold in_window; simpl; lia | reflexivity].
  - reflexivity.
  - reflexivity.
Defined.

(** C1 as stated fails: a [first_contact] row with gap 2.5 exists at frame 5,
    outside the window of the tackle at frame 60, and the detector returns
    frame 40 from the threshold search, not frame 5. *)
Lemma first_contact_outside_window_is_ignored :
  first_with_event "tackle" play_early_first_contact
  = Some (sample 60 (Some "tackle") (5 # 10) (3 # 10) (408 # 10) 20)
  /\ first_with_event "first_contact" play_early_first_contact
     = Some (sample 5 (Some "first_contact") (25 # 10) (4 # 10) 40 20)
  /\ (25 # 10 < 3)%Q
  /\ _get_tackle_window_data play_early_first_contact
     = Ok (TackleWindow.mk 60 40)
  /\ _get_tackle_window_data play_early_first_contact
     <> Ok (TackleWindow.mk 60 5).
Proof.
  repeat split; try reflexivity. vm_compute. discriminate.
Qed.

(** C2, amended by the non-empty window.  For a gap series with a tackle
    event where no [first_contact] row exists, or the first one has a gap of
    3 yards or more, and whose window [[max(1, tackleFrame - 30), tackleFrame)]
    holds at least one row: with [minGap] the least gap over the window, the
    detector returns the earliest frame of the window whose gap is at most
    [max(1.8, minGap) + 1e-5]. *)
Theorem threshold_search_returns_earliest g tk :
  first_with_event "tackle" g = Some tk ->
  (first_with_event "first_contact" g = None
   \/ exists fc, first_with_event "first_contact" g = Some fc
                 /\ (3 <= GapSample.gap fc)%Q) ->
  (exists r, In r g /\ in_window (GapSample.frameId tk) r) ->
  exists minGap c,
    window_min_gap (GapSample.frameId tk) g minGap
    /\ _get_tackle_window_data g =
       Ok (TackleWindow.mk (GapSample.frameId tk) (GapSample.frameId c))
    /\ earliest_within (GapSample.frameId tk) g
         (Qmax (18 # 10) minGap + (1 # 100000))%Q c.
Proof.
  intros Htk Hfc (r & Hr & Hw).
  destruct (contact_by_threshold_ok (GapSample.frameId tk) g)
    as (m & c & Hmin & Hc & Hearly).
  { apply filter_nonnil_ex. exists r. split; [exact Hr|].
    now apply idx_contact_window_iff. }
  exists m, c. split; [exact Hmin|]. split; [|exact Hearly].
  rewrite (detector_threshold_branch _ _ Htk Hfc), Hc. reflexivity.
Qed.

Lemma threshold_search_returns_earliest_scenario_B :
  exists minGap c,
    window_min_gap 60 play_first_contact_far minGap
    /\ _get_tackle_window_data play_first_contact_far =
       Ok (TackleWindow.mk 60 (GapSample.frameId c))
    /\ earliest_within 60 play_first_contact_far
         (Qmax (18 # 10) minGap + (1 # 100000))%Q c.
Proof.
  apply (threshold_search_returns_earliest play_first_contact_far
           (sample 60 (Some "tackle") (6 # 10) (3 # 10) (414 # 10) 20)).
  - reflexivity.
  - right. exists (sample 50 (Some "first_contact") 5 (4 # 10) 40 20).
    split; [reflexivity | discriminate].
  - exists (sample 55 None (12 # 10) (4 # 10) (408 # 10) 20).
    split; [simpl; tauto | unfold in_window; simpl; lia].
Defined.

(** C2 as stated fails where the window is empty: the play has a tackle row
    and no [first_contact] row, and the detector returns no frame at all. *)
Lemma threshold_search_on_empty_window :
  first_with_event "tackle" play_tackle_at_start
  = Some (sample 12 (Some "tackle") (4 # 10) (3 # 10) 40 20)
  /\ first_with_event "first_contact" play_tackle_at_start = None
  /\ _get_tackle_window_data play_tackle_at_start = Raise IndexError
  /\ forall w, _get_tackle_window_data play_tackle_at_start <> Ok w.
Proof.
  repeat split; try reflexivity. intros w. vm_compute. discriminate.
Qed.

Lemma detector_needs_tackle g w :
  _get_tackle_window_data g = Ok w ->
  exists tk, first_with_event "tackle" g = Some tk
             /\ TackleWindow.tackleFrameId w = GapSample.frameId tk.
Proof.
  intro H. unfold first_with_event.
  destruct (filter (event_is "tackle") g) as [|tk rest] eqn:E.
  - unfold _get_tackle_window_data in H. rewrite E in H. discriminate.
  - exists tk. split; [reflexivity|].
    rewrite (detector_unfold g tk) in H by (unfold first_with_event; now rewrite E).
    destruct (if (0 <? _)%nat then _ else _); simpl in H; [|discriminate].
    injection H as <-. reflexivity.
Qed.

Lemma contact_by_threshold_in_window t g f :
  contact_by_threshold t g = Ok f -> f < t.
Proof.
  intro H.
  destruct (filter (idx_contact_window t) g) eqn:E.
  - rewrite contact_by_threshold_empty in H by exact E. discriminate.
  - destruct (contact_by_threshold_ok t g) as (m & c & _ & Hc & _ & Hw & _).
    { rewrite E. discriminate. }
    rewrite Hc in H. injection H as <-. unfold in_window in Hw. lia.
Qed.

(** In a series with increasing frame ids the first row of a selection has
    the least frame id of the selection. *)
Lemma first_of_increasing_selection (p : GapSample.t -> bool) g r0 r1 :
  gap_series_wf g ->
  hd_error (filter p g) = Some r0 -> In r1 g -> p r1 = true ->
  GapSample.frameId r0 <= GapSample.frameId r1.
Proof.
  intro Hwf. apply Sorted_StronglySorted in Hwf.
  2:{ intros a b c; lia. }
  induction Hwf as [|a g' Hs IH Hall]; simpl; [contradiction|].
  intros Hhd [->|Hin] Hp.
  - rewrite Hp in Hhd. injection Hhd as <-. lia.
  - destruct (p a) eqn:Ea.
    + injection Hhd as <-. rewrite Forall_forall in Hall.
      specialize (Hall _ Hin). lia.
    + now apply IH.
Qed.

(** On a gap series (frame ids increasing) the detector's contact frame is
    strictly before its tackle frame. *)
Lemma detector_contact_before_tackle g w :
  gap_series_wf g ->
  _get_tackle_window_data g = Ok w ->
  TackleWindow.contactFrameId w < TackleWindow.tackleFrameId w.
Proof.
  intros Hwf H.
  destruct (detector_needs_tackle _ _ H) as (tk & Htk & Ht).
  rewrite (detector_unfold _ _ Htk) in H.
  destruct (0 <? List.length _)%nat eqn:E.
  - apply length_pos_nonnil in E. apply filter_nonnil_ex in E.
    destruct E as (r1 & Hr1 & Hp). apply andb_true_iff in Hp.
    destruct Hp as [Hw1 He1]. apply idx_contact_window_iff in Hw1.
    destruct (filter (event_is "first_contact") g) as [|fc rest] eqn:F;
      [discriminate|].
    simpl in H.
    destruct (Qltb (GapSample.gap fc) 3).
    + simpl in H. injection H as <-. simpl.
      assert (GapSample.frameId fc <= GapSample.frameId r1).
      { apply (first_of_increasing_selection (event_is "first_contact") g);
          auto. now rewrite F. }
      unfold in_window in Hw1. lia.
    + destruct (contact_by_threshold _ g) as [f|] eqn:C; [|discriminate].
      simpl in H. injection H as <-. simpl.
      now apply contact_by_threshold_in_window in C.
  - destruct (contact_by_threshold _ g) as [f|] eqn:C; [|discriminate].
    simpl in H. injection H as <-. simpl.
    now apply contact_by_threshold_in_window in C.
Qed.

(** C10.  With the first [tackle] row known: every in-window row attaining
    the least gap of the window passes the test
    [gap <= max(1.8, minGap) + 1e-5], so with a non-empty window the selection
    of the threshold search is non-empty and its first-row access succeeds;
    with an empty window the detector raises the bare [IndexError] of
    [.iloc[0]]. *)
Theorem threshold_selection_nonempty g tk :
  first_with_event "tackle" g = Some tk ->
  let t := GapSample.frameId tk in
  (forall r, In r g -> in_window t r ->
     (forall r', In r' g -> in_window t r' ->
                 (GapSample.gap r <= GapSample.gap r')%Q) ->
     below_threshold t (gap_for_contact_of t g) r = true)
  /\ (filter (idx_contact_window t) g <> [] ->
      filter (below_threshold t (gap_for_contact_of t g)) g <> []
      /\ exists f, contact_by_threshold t g = Ok f)
  /\ (filter (idx_contact_window t) g = [] ->
      _get_tackle_window_data g = Raise IndexError).
Proof.
  intros Htk t.
  assert (Hatt : forall r, In r g -> in_window t r ->
     (forall r', In r' g -> in_window t r' ->
                 (GapSample.gap r <= GapSample.gap r')%Q) ->
     below_threshold t (gap_for_contact_of t g) r = true).
  { intros r Hr Hw Hleast.
    destruct (series_min_spec
                (map GapSample.gap (filter (idx_contact_window t) g)))
      as (m & Hmin & Hin & _).
    { intro E. apply map_eq_nil in E.
      apply (proj1 (filter_nil_iff _ _) E) in Hr.
      apply idx_contact_window_iff in Hw. congruence. }
    apply in_map_iff in Hin. destruct Hin as (rm & Hgap & Hrm).
    apply filter_In in Hrm. destruct Hrm as [Hrm_in Hrm_w].
    apply idx_contact_window_iff in Hrm_w.
    destruct (py_max_fin (18 # 10) m) as (thr & Hthr & Heq).
    unfold gap_for_contact_of. rewrite Hmin, Hthr.
    apply below_threshold_fin. split; [exact Hw|].
    apply Qle_trans with m; [rewrite <- Hgap; now apply Hleast|].
    rewrite Heq.
    apply Qle_trans with (Qmax (18 # 10) m); [apply Q.le_max_r|].
    rewrite <- (Qplus_0_r (Qmax (18 # 10) m)) at 1.
    apply Qplus_le_r. discriminate. }
  split; [exact Hatt|]. split.
  - intro Hne.
    destruct (contact_by_threshold_ok t g Hne)
      as (m & c & _ & Hc & Hc_in & Hc_w & _).
    split; [|eauto].
    intro E. unfold contact_by_threshold in Hc. rewrite E in Hc. discriminate.
  - intro He. rewrite (detector_unfold _ _ Htk). fold t.
    replace (filter (fun r => idx_contact_window t r
                              && event_is "first_contact" r) g)
      with (@nil GapSample.t).
    + simpl. rewrite (contact_by_threshold_empty _ _ He). reflexivity.
    + symmetry. apply filter_nil_iff. intros r Hr.
      rewrite (proj1 (filter_nil_iff _ _) He r Hr). reflexivity.
Qed.

Lemma threshold_selection_nonempty_scenario_C :
  (filter (below_threshold 60 (gap_for_contact_of 60 play_trip)) play_trip
   <> []
   /\ exists f, contact_by_threshold 60 play_trip = Ok f)
  /\ _get_tackle_window_data play_tackle_at_start = Raise IndexError.
Proof.
  split.
  - apply (threshold_selection_nonempty play_trip
             (sample 60 (Some "tackle") (25 # 10) (3 # 10) (414 # 10) 20)
             eq_refl).
    discriminate.
  - apply (threshold_selection_nonempty play_tackle_at_start
             (sample 12 (Some "tackle") (4 # 10) (3 # 10) 40 20)
             eq_refl).
    reflexivity.
Defined.

(** ** The metrics of a gap series *)

Section MetricsFacts.

Variable np_sqrt : Q -> Q.

(** A record returned by the calculator, field by field. *)
Lemma tackle_metrics_of_inv g r :
  tackle_metrics_of np_sqrt g = Ok r ->
  exists w,
    _get_tackle_window_data g = Ok w
    /\ TackleMetrics.contactFrameId r = TackleWindow.contactFrameId w
    /\ TackleMetrics.tackleFrameId r = TackleWindow.tackleFrameId w
    /\ TackleMetrics.frames r
       = TackleWindow.tackleFrameId w - TackleWindow.contactFrameId w
    /\ (exists a, TackleMetrics.d_ideal r = np_sqrt a)
    /\ TackleMetrics.d_eff r
       = if Qeq_bool (TackleMetrics.d_actual r) 0 then NaN
         else fdiv (Fin (TackleMetrics.d_ideal r))
                   (Fin (TackleMetrics.d_actual r)).
Proof.
  intro H. unfold tackle_metrics_of in H.
  bind_inv H. injection H as <-. cbn.
  eexists. split; [reflexivity|]. repeat split; eauto.
Qed.

(** On a series whose frame ids increase strictly along the rows, as the
    data model has it, a returned window has contactFrameId <=
    tackleFrameId, and the frames field of a metrics record,
    tackleFrameId - contactFrameId, is >= 0. *)
Lemma contact_not_after_tackle g :
  gap_series_wf g ->
  (forall w, _get_tackle_window_data g = Ok w ->
             TackleWindow.contactFrameId w <= TackleWindow.tackleFrameId w)
  /\ (forall r, tackle_metrics_of np_sqrt g = Ok r ->
                TackleMetrics.frames r
                = TackleMetrics.tackleFrameId r
                  - TackleMetrics.contactFrameId r
                /\ 0 <= TackleMetrics.frames r).
Proof.
  intro Hwf. split.
  - intros w Hw. apply Z.lt_le_incl.
    now apply detector_contact_before_tackle with g.
  - intros r Hr.
    destruct (tackle_metrics_of_inv _ _ Hr) as (w & Hw & Hc & Ht & Hf & _).
    pose proof (detector_contact_before_tackle _ _ Hwf Hw).
    rewrite Hc, Ht, Hf. lia.
Qed.

(** C4, with the error the code raises.  On a gap series in which no row
    has event "tackle" the detector fails with the [IndexError] of
    [.iloc[0]] on the empty selection, and no metrics record is made. *)
Theorem no_tackle_event_raises_IndexError g :
  (forall r, In r g -> event_is "tackle" r = false) ->
  _get_tackle_window_data g = Raise IndexError
  /\ tackle_metrics_of np_sqrt g = Raise IndexError.
Proof.
  intro H. apply filter_nil_iff in H.
  assert (D : _get_tackle_window_data g = Raise IndexError).
  { unfold _get_tackle_window_data. rewrite H. reflexivity. }
  split; [exact D|].
  unfold tackle_metrics_of. rewrite D. reflexivity.
Qed.

Hypothesis np_sqrt_nonneg : forall q, (0 <= np_sqrt q)%Q.


End MetricsFacts.


Lemma play_two_contacts_wf : gap_series_wf play_two_contacts.
Proof.
  unfold gap_series_wf, play_two_contacts.
  repeat (constructor; simpl; try lia).
Qed.

Lemma contact_not_after_tackle_two_contacts :
  gap_series_wf play_two_contacts
  /\ _get_tackle_window_data play_two_contacts = Ok (TackleWindow.mk 5 2)
  /\ 2 <= 5
  /\ match tackle_metrics_of approx_sqrt play_two_contacts with
     | Ok r => TackleMetrics.frames r = 3 /\ 0 <= TackleMetrics.frames r
     | Raise _ => False
     end.
Proof.
  destruct (contact_not_after_tackle approx_sqrt play_two_contacts
              play_two_contacts_wf) as [Hw Hr].
  split; [exact play_two_contacts_wf|].
  split; [reflexivity|].
  split; [exact (Hw (TackleWindow.mk 5 2) eq_refl)|].
  destruct (tackle_metrics_of approx_sqrt play_two_contacts) as [r|e] eqn:E.
  - split; [|exact (proj2 (Hr r eq_refl))].
    vm_compute in E. injection E as <-. reflexivity.
  - vm_compute in E. discriminate E.
Defined.

Lemma no_tackle_event_raises_IndexError_scenario_E :
  _get_tackle_window_data play_no_tackle = Raise IndexError
  /\ tackle_metrics_of approx_sqrt play_no_tackle = Raise IndexError.
Proof.
  apply (no_tackle_event_raises_IndexError approx_sqrt play_no_tackle).
  intros r Hr. simpl in Hr.
  repeat (destruct Hr as [<-|Hr]; [reflexivity|]). contradiction.
Defined.

(** C4 as stated fails on the error kind: the exception raised for a play
    without a tackle label is a plain [IndexError], the one also raised for
    an empty window; the code has no [NoTackleEventError]. *)
Lemma no_tackle_event_error_is_not_designated :
  (forall r, In r play_no_tackle -> event_is "tackle" r = false)
  /\ _get_tackle_window_data play_no_tackle = Raise IndexError
  /\ _get_tackle_window_data play_tackle_at_start = Raise IndexError
  /\ exn_class IndexError <> "NoTackleEventError".
Proof.
  split; [|split; [reflexivity|split; [reflexivity|discriminate]]].
  intros r Hr. simpl in Hr.
  repeat (destruct Hr as [<-|Hr]; [reflexivity|]). contradiction.
Qed.



(** ** The gap-series builder *)

Section BuilderFacts.

Variable np_sqrt : Q -> Q.
Variable np_sin_deg : Q -> Q.

(** C6, as the code has it.  The builder reads the play direction of the
    first row only: when that is not "right" it raises a [ValueError]
    carrying the direction, gameId and playId of that row; when it is
    "right" the builder returns a series, whatever the later rows say. *)
Theorem play_direction_checked_on_first_row r rest play_df tackle_df
  player_df :
  (TrackingFrame.playDirection r <> "right" ->
   _get_tackle_components_vs_time np_sqrt np_sin_deg (r :: rest)
     play_df tackle_df player_df
   = Raise (ValueError_playDirection (TrackingFrame.playDirection r)
              (TrackingFrame.gameId r) (TrackingFrame.playId r)))
  /\ (TrackingFrame.playDirection r = "right" ->
      exists series,
        _get_tackle_components_vs_time np_sqrt np_sin_deg (r :: rest)
          play_df tackle_df player_df
        = Ok series).
Proof.
  unfold _get_tackle_components_vs_time. cbn [map iloc0 bind].
  split; intro H.
  - apply String.eqb_neq in H. rewrite H. reflexivity.
  - apply String.eqb_eq in H. rewrite H. cbn [negb]. eauto.
Qed.

End BuilderFacts.

Lemma play_direction_checked_on_first_row_examples :
  _get_tackle_components_vs_time approx_sqrt approx_sin_deg
    (row_moving_left :: tackler_56 "right")
    plays_example tackles_example players_example
  = Raise (ValueError_playDirection "left" 2022091100 56)
  /\ exists series,
       _get_tackle_components_vs_time approx_sqrt approx_sin_deg
         (carrier_56 1 :: tackler_56 "left")
         plays_example tackles_example players_example
       = Ok series.
Proof.
  split.
  - apply (play_direction_checked_on_first_row approx_sqrt approx_sin_deg
             row_moving_left (tackler_56 "right")).
    discriminate.
  - apply (play_direction_checked_on_first_row approx_sqrt approx_sin_deg
             (carrier_56 1) (tackler_56 "left")).
    reflexivity.
Defined.

(** C6 as stated fails: the tackler's rows of this play have playDirection
    "left", and the builder returns the five-row series all the same. *)
Lemma mixed_direction_play_is_accepted :
  In (track 56 22 1 54 20 270 None "left") track_56_mixed_direction
  /\ TrackingFrame.playDirection (track 56 22 1 54 20 270 None "left")
     <> "right"
  /\ exists series,
       _get_tackle_components_vs_time approx_sqrt approx_sin_deg
         track_56_mixed_direction plays_example tackles_example
         players_example
       = Ok series
       /\ map GapSample.frameId series = [1; 2; 3; 4; 5].
Proof.
  split; [simpl; tauto|]. split; [discriminate|].
  eexists. split; [vm_compute; reflexivity | reflexivity].
Qed.

(** C7 as stated fails for the builder: the input has rows of plays 56 and
    101, and the builder returns a series with one row from each. *)
Lemma builder_accepts_two_plays :
  map TrackingFrame.playId track_two_plays = [56; 56; 101; 101]
  /\ exists series,
       _get_tackle_components_vs_time approx_sqrt approx_sin_deg
         track_two_plays plays_example tackles_example players_example
       = Ok series
       /\ map GapSample.frameId series = [1; 1]
       /\ map GapSample.x_t series = [54; 305 # 10]%Q.
Proof.
  split; [reflexivity|].
  eexists. split; [vm_compute; reflexivity | split; reflexivity].
Qed.

(** ** The single-play check of the play-level helpers *)

Lemma unique_In (l : list Z) (v : Z) : In v (unique l) <-> In v l.
Proof.
  induction l as [|a t IH]; simpl; [tauto|].
  rewrite filter_In, IH, negb_true_iff, Z.eqb_neq.
  destruct (Z.eq_dec v a) as [->|Hne]; intuition.
Qed.

(** A column with at most one distinct value holds the same value in every
    row. *)
Lemma unique_at_most_one (l : list Z) (v v' : Z) :
  (1 <? List.length (unique l))%nat = false ->
  In v l -> In v' l -> v = v'.
Proof.
  intros Hlen Hv Hv'.
  apply unique_In in Hv. apply unique_In in Hv'.
  destruct (unique l) as [|a [|b t]]; simpl in *.
  - contradiction.
  - destruct Hv as [<-|[]]; destruct Hv' as [<-|[]]; reflexivity.
  - discriminate.
Qed.

(** C7, for the function that does check.  For every tracking input with
    rows of more than one (gameId, playId) key, [util_play_contains_tackle]
    fails with a [ValueError] that carries the distinct gameIds and the
    distinct playIds of the input, those of the offending rows among them.
    (The gap-series builder makes no such check.) *)
Theorem multi_play_input_rejected_by_play_check track_df r1 r2 :
  In r1 track_df -> In r2 track_df ->
  (TrackingFrame.gameId r1, TrackingFrame.playId r1)
  <> (TrackingFrame.gameId r2, TrackingFrame.playId r2) ->
  let game_list := unique (map TrackingFrame.gameId track_df) in
  let play_list := unique (map TrackingFrame.playId track_df) in
  util_play_contains_tackle track_df
  = Raise (ValueError_multi_play game_list play_list)
  /\ In (TrackingFrame.gameId r1) game_list
  /\ In (TrackingFrame.playId r1) play_list
  /\ In (TrackingFrame.gameId r2) game_list
  /\ In (TrackingFrame.playId r2) play_list.
Proof.
  intros H1 H2 Hne game_list play_list.
  split.
  - unfold util_play_contains_tackle. fold game_list play_list.
    destruct (1 <? List.length game_list)%nat eqn:Eg; [reflexivity|].
    destruct (1 <? List.length play_list)%nat eqn:Ep; [reflexivity|].
    exfalso. apply Hne. f_equal.
    + apply (unique_at_most_one _ _ _ Eg); now apply in_map.
    + apply (unique_at_most_one _ _ _ Ep); now apply in_map.
  - repeat split; apply unique_In; now apply in_map.
Qed.

Lemma multi_play_input_rejected_by_play_check_two_plays :
  util_play_contains_tackle track_two_plays
  = Raise (ValueError_multi_play [2022091100] [56; 101])
  /\ In 2022091100 [2022091100] /\ In 56 [56; 101]
  /\ In 2022091100 [2022091100] /\ In 101 [56; 101].
Proof.
  apply (multi_play_input_rejected_by_play_check track_two_plays
           (track 56 11 1 50 20 90 None "right")
           (track 101 11 1 30 25 90 (Some "tackle") "right")).
  - simpl; tauto.
  - simpl; tauto.
  - discriminate.
Defined.

(** ** Direction normalization *)

Lemma transform_row_right r :
  TrackingFrame.playDirection r = "right" -> transform_row r = r.
Proof. intro H. unfold transform_row. rewrite H. reflexivity. Qed.

Lemma transform_row_not_left r :
  String.eqb (TrackingFrame.playDirection (transform_row r)) "left" = false.
Proof.
  unfold transform_row.
  destruct (String.eqb (TrackingFrame.playDirection r) "left") eqn:E;
    [reflexivity | exact E].
Qed.

Lemma transform_row_idempotent r :
  transform_row (transform_row r) = transform_row r.
Proof.
  unfold transform_row at 1. rewrite transform_row_not_left. reflexivity.
Qed.

Lemma map_transform_row_right df :
  (forall r, In r df -> TrackingFrame.playDirection r = "right") ->
  map transform_row df = df.
Proof.
  intro H. induction df as [|a df IH]; [reflexivity|]. simpl.
  rewrite transform_row_right by (apply H; now left).
  rewrite IH; [reflexivity|]. intros r Hr. apply H. now right.
Qed.

(** C8, as the code has it.  The transform leaves every row of a play
    already in the "right" direction unchanged; a row of a "left" play is
    mirrored ([x -> 120 - x], [y -> 53.3 - y], [o] and [dir] turned by 180
    degrees mod 360) and relabelled "right"; and so a second application
    changes nothing more: applied twice, the transform gives what it gives
    applied once. *)
Theorem transform_is_idempotent :
  (forall df,
     (forall r, In r df -> TrackingFrame.playDirection r = "right") ->
     transform_tracking_data df false = (df, Some df)
     /\ transform_tracking_data df true = (df, None))
  /\ (forall r,
        TrackingFrame.playDirection r = "left" ->
        let r' := transform_row r in
        TrackingFrame.x r' = (120 - TrackingFrame.x r)%Q
        /\ TrackingFrame.y r' = ((533 # 10) - TrackingFrame.y r)%Q
        /\ TrackingFrame.o r' = mod360 (TrackingFrame.o r + 180)%Q
        /\ TrackingFrame.dir r' = mod360 (TrackingFrame.dir r + 180)%Q
        /\ TrackingFrame.playDirection r' = "right")
  /\ (forall df out,
        transform_tracking_data df false = (df, Some out) ->
        transform_tracking_data out false = (out, Some out))
  /\ (forall df,
        fst (transform_tracking_data (fst (transform_tracking_data df true))
               true)
        = fst (transform_tracking_data df true)).
Proof.
  split; [|split; [|split]].
  - intros df H. unfold transform_tracking_data.
    rewrite (map_transform_row_right _ H). split; reflexivity.
  - intros r H r'. subst r'. unfold transform_row. rewrite H.
    repeat split.
  - intros df out H. unfold transform_tracking_data in *.
    injection H as <-. rewrite map_map.
    f_equal. f_equal. apply map_ext. intro r. apply transform_row_idempotent.
  - intro df. unfold transform_tracking_data. simpl. rewrite map_map.
    apply map_ext. intro r. apply transform_row_idempotent.
Qed.

Lemma transform_is_idempotent_examples :
  (transform_tracking_data track_56 false = (track_56, Some track_56)
   /\ transform_tracking_data track_56 true = (track_56, None))
  /\ TrackingFrame.x (transform_row row_moving_left) = (120 - 10)%Q
  /\ transform_tracking_data [transform_row row_moving_left] false
     = ([transform_row row_moving_left], Some [transform_row row_moving_left]).
Proof.
  destruct transform_is_idempotent as (Hright & Hleft & Htwice & _).
  split; [|split].
  - apply Hright. intros r Hr. simpl in Hr.
    repeat (destruct Hr as [<-|Hr]; [reflexivity|]). contradiction.
  - exact (proj1 (Hleft row_moving_left eq_refl)).
  - apply (Htwice [row_moving_left]). reflexivity.
Defined.

(** C8 as stated fails for a "left" play: the first application mirrors the
    row to x = 110 and labels it "right", the second leaves it there; the
    row does not come back to x = 10, y = 20, o = dir = 45. *)
Lemma transform_twice_does_not_restore :
  exists once twice,
    transform_tracking_data [row_moving_left] false
    = ([row_moving_left], Some once)
    /\ transform_tracking_data once false = (once, Some twice)
    /\ map TrackingFrame.x [row_moving_left] = [10]%Q
    /\ map TrackingFrame.x twice = [110]%Q
    /\ map TrackingFrame.y twice = [333 # 10]%Q
    /\ map TrackingFrame.dir twice = [225]%Q
    /\ twice <> [row_moving_left].
Proof.
  eexists. eexists.
  split; [reflexivity|]. split; [reflexivity|].
  vm_compute. repeat split; discriminate.
Qed.

(** ** Row order *)

(** C9 on the code: the two series hold the same rows and are the same once
    ordered by frameId, and the detector returns contact frame 2 for one and
    3 for the other; so do the metrics, and the whole pipeline on the two
    orders of the tracking rows.  The first [first_contact] row is taken in
    row order, where the threshold search orders by frameId first. *)
Theorem row_order_changes_the_contact_frame :
  Permutation play_two_contacts play_two_contacts_reordered
  /\ sort_values_frameId play_two_contacts_reordered
     = sort_values_frameId play_two_contacts
  /\ _get_tackle_window_data play_two_contacts = Ok (TackleWindow.mk 5 2)
  /\ _get_tackle_window_data play_two_contacts_reordered
     = Ok (TackleWindow.mk 5 3)
  /\ Permutation track_56 track_56_reordered
  /\ exists r r',
       prep_get_tackle_metrics approx_sqrt approx_sin_deg track_56
         plays_example tackles_example players_example = Ok r
       /\ prep_get_tackle_metrics approx_sqrt approx_sin_deg
            track_56_reordered plays_example tackles_example players_example
          = Ok r'
       /\ TackleMetrics.contactFrameId r = 2
       /\ TackleMetrics.contactFrameId r' = 3
       /\ TackleMetrics.frames r = 3
       /\ TackleMetrics.frames r' = 2.
Proof.
  split; [|split; [|split; [|split; [|split]]]].
  - unfold play_two_contacts, play_two_contacts_reordered.
    apply perm_skip. apply perm_swap.
  - reflexivity.
  - reflexivity.
  - reflexivity.
  - unfold track_56, track_56_reordered. apply Permutation_app_tail.
    simpl. apply perm_skip. apply perm_swap.
  - eexists. eexists.
    split; [vm_compute; reflexivity|].
    split; [vm_compute; reflexivity|].
    repeat split.
Qed.

(** Out of frame order the same selection puts the contact after the
    tackle. *)
Remark rows_out_of_order_contact_after_tackle :
  ~ gap_series_wf play_rows_out_of_order
  /\ _get_tackle_window_data play_rows_out_of_order
     = Ok (TackleWindow.mk 60 70).
Proof.
  split; [|reflexivity].
  intro H. inversion H as [|a l _ Hhd]; subst.
  inversion Hhd as [|b l' Hlt]; subst. simpl in Hlt. lia.
Qed.

(** C3 on the code.  The detector succeeds on this series and returns
    contact frame 70 after tackle frame 60, and the metrics record has
    frames = -10: a [first_contact] row lies in the window (frame 55), and
    the row used is the first [first_contact] row in row order, frame 70.
    On the same rows ordered by frameId the contact frame is 55.  The defect
    is the one of C9: the first-row access without the ordering by frameId
    that the threshold search makes. *)
Theorem contact_after_tackle_on_unordered_rows :
  _get_tackle_window_data play_late_label_first = Ok (TackleWindow.mk 60 70)
  /\ ~ (TackleWindow.contactFrameId (TackleWindow.mk 60 70)
        <= TackleWindow.tackleFrameId (TackleWindow.mk 60 70))
  /\ (exists rec,
        tackle_metrics_of approx_sqrt play_late_label_first = Ok rec
        /\ TackleMetrics.contactFrameId rec = 70
        /\ TackleMetrics.tackleFrameId rec = 60
        /\ TackleMetrics.frames rec = -10
        /\ ~ (0 <= TackleMetrics.frames rec))
  /\ map GapSample.frameId (sort_values_frameId play_late_label_first)
     = [40; 55; 59; 60; 70]
  /\ _get_tackle_window_data (sort_values_frameId play_late_label_first)
     = Ok (TackleWindow.mk 60 55).
Proof.
  split; [reflexivity|].
  split; [simpl; lia|].
  split.
  - eexists. split; [vm_compute; reflexivity|].
    simpl. repeat split; lia.
  - split; reflexivity.
Qed.

(** * Further properties of the code *)

(** ** When the detector returns *)

Lemma detector_empty_window g tk :
  first_with_event "tackle" g = Some tk ->
  filter (idx_contact_window (GapSample.frameId tk)) g = [] ->
  _get_tackle_window_data g = Raise IndexError.
Proof.
  intros Htk He. rewrite (detector_unfold _ _ Htk).
  replace (filter (fun r => idx_contact_window (GapSample.frameId tk) r
                            && event_is "first_contact" r) g)
    with (@nil GapSample.t).
  - simpl. rewrite (contact_by_threshold_empty _ _ He). reflexivity.
  - symmetry. apply filter_nil_iff. intros r Hr.
    rewrite (proj1 (filter_nil_iff _ _) He r Hr). reflexivity.
Qed.

(** The three ways a call of the detector can go. *)
Lemma detector_cases g :
  (first_with_event "tackle" g = None
   /\ _get_tackle_window_data g = Raise IndexError)
  \/ (exists tk, first_with_event "tackle" g = Some tk
                 /\ filter (idx_contact_window (GapSample.frameId tk)) g = []
                 /\ _get_tackle_window_data g = Raise IndexError)
  \/ (exists tk c, first_with_event "tackle" g = Some tk
                   /\ filter (idx_contact_window (GapSample.frameId tk)) g
                      <> []
                   /\ _get_tackle_window_data g
                      = Ok (TackleWindow.mk (GapSample.frameId tk) c)).
Proof.
  destruct (first_with_event "tackle" g) as [tk|] eqn:Htk.
  - right.
    destruct (filter (idx_contact_window (GapSample.frameId tk)) g)
      as [|r0 rest] eqn:W.
    + left. exists tk. split; [reflexivity|]. split; [exact W|].
      exact (detector_empty_window g tk Htk W).
    + right.
      assert (Hne : filter (idx_contact_window (GapSample.frameId tk)) g <> [])
        by (rewrite W; discriminate).
      destruct (contact_by_threshold_ok _ g Hne) as (m & c & _ & Hc & _).
      rewrite (detector_unfold _ _ Htk).
      destruct (0 <? List.length _)%nat eqn:E.
      * apply length_pos_nonnil in E. apply filter_nonnil_ex in E.
        destruct E as (r & Hr & Hp). apply andb_true_iff in Hp.
        destruct (filter (event_is "first_contact") g) as [|fc l] eqn:F.
        { rewrite (proj1 (filter_nil_iff _ _) F r Hr) in Hp.
          destruct Hp; discriminate. }
        cbn [iloc0 bind].
        destruct (Qltb (GapSample.gap fc) 3).
        -- exists tk, (GapSample.frameId fc). repeat split; auto.
        -- exists tk, (GapSample.frameId c). rewrite Hc.
           repeat split; auto.
      * exists tk, (GapSample.frameId c). rewrite Hc. repeat split; auto.
  - left. split; [reflexivity|].
    unfold first_with_event in Htk. unfold _get_tackle_window_data.
    destruct (filter (event_is "tackle") g); [reflexivity | discriminate].
Qed.

(** X1.  The detector returns a window exactly when the series has a [tackle] row
    and some row lies in the window of the first one; otherwise it raises,
    and the only exception it ever raises is [IndexError]. *)
Theorem detector_returns_iff_window_nonempty g :
  ((exists w, _get_tackle_window_data g = Ok w)
   <-> exists tk r, first_with_event "tackle" g = Some tk
                    /\ In r g /\ in_window (GapSample.frameId tk) r)
  /\ (forall e, _get_tackle_window_data g = Raise e -> e = IndexError).
Proof.
  destruct (detector_cases g)
    as [(Hn & Hr) | [(tk & Htk & Hw & Hr) | (tk & c & Htk & Hw & Hr)]].
  - split; [split|].
    + intros (w & Hw). congruence.
    + intros (tk & r & Htk & _). congruence.
    + intros e He. congruence.
  - split; [split|].
    + intros (w & Hw'). congruence.
    + intros (tk' & r & Htk' & Hr' & Hwin).
      assert (tk' = tk) by congruence. subst tk'.
      apply idx_contact_window_iff in Hwin.
      rewrite (proj1 (filter_nil_iff _ _) Hw r Hr') in Hwin. discriminate.
    + intros e He. congruence.
  - split; [split|].
    + intros _. apply filter_nonnil_ex in Hw. destruct Hw as (r & Hr' & Hwin).
      exists tk, r. split; [exact Htk|]. split; [exact Hr'|].
      now apply idx_contact_window_iff.
    + intros _. eauto.
    + intros e He. congruence.
Qed.

Lemma detector_returns_iff_window_nonempty_examples :
  (exists w, _get_tackle_window_data play_trip = Ok w)
  /\ exn_class IndexError = "IndexError".
Proof.
  split; [|reflexivity].
  apply (proj1 (detector_returns_iff_window_nonempty play_trip)).
  exists (sample 60 (Some "tackle") (25 # 10) (3 # 10) (414 # 10) 20),
         (sample 45 None (23 # 10) (4 # 10) (404 # 10) 20).
  split; [reflexivity|]. split; [simpl; tauto|].
  unfold in_window; simpl; lia.
Defined.

Lemma detector_window_rows g w :
  _get_tackle_window_data g = Ok w ->
  (exists tk, first_with_event "tackle" g = Some tk /\ In tk g
              /\ GapSample.frameId tk = TackleWindow.tackleFrameId w)
  /\ (exists rc, In rc g
                 /\ GapSample.frameId rc = TackleWindow.contactFrameId w
                 /\ (in_window (TackleWindow.tackleFrameId w) rc
                     \/ (first_with_event "first_contact" g = Some rc
                         /\ (GapSample.gap rc < 3)%Q))).
Proof.
  intro H.
  destruct (detector_needs_tackle _ _ H) as (tk & Htk & Ht).
  assert (Htk_in : In tk g).
  { unfold first_with_event in Htk.
    destruct (filter (event_is "tackle") g) as [|a l] eqn:F; [discriminate|].
    injection Htk as ->.
    assert (In tk (filter (event_is "tackle") g)) by (rewrite F; now left).
    apply filter_In in H0. tauto. }
  split; [exists tk; auto|].
  rewrite (detector_unfold _ _ Htk) in H. rewrite Ht.
  assert (Hthr : forall f, contact_by_threshold (GapSample.frameId tk) g = Ok f ->
            exists rc, In rc g /\ GapSample.frameId rc = f
                       /\ in_window (GapSample.frameId tk) rc).
  { intros f Hf.
    destruct (filter (idx_contact_window (GapSample.frameId tk)) g) eqn:W.
    - rewrite contact_by_threshold_empty in Hf by exact W. discriminate.
    - destruct (contact_by_threshold_ok (GapSample.frameId tk) g)
        as (m & c & _ & Hc & Hc_in & Hc_w & _).
      { rewrite W. discriminate. }
      rewrite Hc in Hf. injection Hf as <-. eauto. }
  destruct (0 <? List.length _)%nat.
  - destruct (filter (event_is "first_contact") g) as [|fc l] eqn:F;
      [discriminate|].
    cbn [iloc0 bind] in H.
    destruct (Qltb (GapSample.gap fc) 3) eqn:Eg.
    + cbn [bind] in H. injection H as <-. cbn.
      exists fc. split; [|split; [reflexivity|]].
      * assert (In fc (filter (event_is "first_contact") g))
          by (rewrite F; now left).
        apply filter_In in H. tauto.
      * right. unfold first_with_event. rewrite F.
        split; [reflexivity | now apply Qltb_lt].
    + destruct (contact_by_threshold _ g) as [f|] eqn:C; [|discriminate].
      cbn [bind] in H. injection H as <-. cbn.
      destruct (Hthr f eq_refl) as (rc & ? & ? & ?). exists rc. auto.
  - destruct (contact_by_threshold _ g) as [f|] eqn:C; [|discriminate].
    cbn [bind] in H. injection H as <-. cbn.
    destruct (Hthr f eq_refl) as (rc & ? & ? & ?). exists rc. auto.
Qed.

(** X2.  Both frames of a returned window are frames of the series: the tackle
    frame is that of the first [tackle] row, and the contact frame is that of
    a row inside the window or of the first [first_contact] row, whose gap is
    then under 3 yards. *)
Theorem detector_frames_are_rows g w :
  _get_tackle_window_data g = Ok w ->
  (exists tk, first_with_event "tackle" g = Some tk /\ In tk g
              /\ GapSample.frameId tk = TackleWindow.tackleFrameId w)
  /\ (exists rc, In rc g
                 /\ GapSample.frameId rc = TackleWindow.contactFrameId w
                 /\ (in_window (TackleWindow.tackleFrameId w) rc
                     \/ (first_with_event "first_contact" g = Some rc
                         /\ (GapSample.gap rc < 3)%Q))).
Proof.
  exact (detector_window_rows g w).
Qed.

Lemma detector_frames_are_rows_scenario_A :
  (exists tk, first_with_event "tackle" play_first_contact_close = Some tk
              /\ In tk play_first_contact_close
              /\ GapSample.frameId tk = 60)
  /\ (exists rc, In rc play_first_contact_close
                 /\ GapSample.frameId rc = 50
                 /\ (in_window 60 rc
                     \/ (first_with_event "first_contact"
                           play_first_contact_close = Some rc
                         /\ (GapSample.gap rc < 3)%Q))).
Proof.
  exact (detector_frames_are_rows play_first_contact_close
           (TackleWindow.mk 60 50) eq_refl).
Defined.

(** ** Row order *)

Lemma filter_Permutation {A : Type} (p : A -> bool) (l l' : list A) :
  Permutation l l' -> Permutation (filter p l) (filter p l').
Proof.
  induction 1 as [|a l l' _ IH|a b l|l l' l'' _ IH1 _ IH2]; simpl.
  - constructor.
  - destruct (p a); [now constructor | exact IH].
  - destruct (p a), (p b); try apply Permutation_refl.
    apply perm_swap.
  - now apply Permutation_trans with (filter p l').
Qed.

Lemma Permutation_short_eq {A : Type} (l l' : list A) :
  Permutation l l' -> (List.length l <= 1)%nat -> l' = l.
Proof.
  intros HP Hlen. destruct l as [|a [|b l]]; simpl in Hlen.
  - now apply Permutation_nil.
  - now apply Permutation_length_1_inv.
  - lia.
Qed.

Lemma window_min_gap_le t g g' m m' :
  (forall r, In r g -> In r g') ->
  window_min_gap t g m -> window_min_gap t g' m' -> (m' <= m)%Q.
Proof.
  intros Hsub ((rm & Hin & Hw & Hgap) & _) (_ & Hlow).
  rewrite <- Hgap. apply Hlow; auto.
Qed.

Lemma earliest_within_le t g g' b b' c c' :
  (forall r, In r g -> In r g') -> (b == b')%Q ->
  earliest_within t g b c -> earliest_within t g' b' c' ->
  GapSample.frameId c' <= GapSample.frameId c.
Proof.
  intros Hsub Hb (Hin & Hw & Hgap & _) (_ & _ & _ & Hmin).
  apply Hmin; auto. rewrite <- Hb. exact Hgap.
Qed.

Lemma contact_by_threshold_Permutation t g g' :
  Permutation g g' ->
  contact_by_threshold t g' = contact_by_threshold t g.
Proof.
  intro HP.
  assert (Hfw : forall r, In r g -> In r g')
    by (intros r; apply Permutation_in; exact HP).
  assert (Hbw : forall r, In r g' -> In r g)
    by (intros r; apply Permutation_in; now apply Permutation_sym).
  destruct (filter (idx_contact_window t) g) as [|r0 rest] eqn:W.
  - rewrite (contact_by_threshold_empty t g W).
    apply contact_by_threshold_empty. apply filter_nil_iff.
    intros r Hr. apply (proj1 (filter_nil_iff _ _) W). auto.
  - assert (Hne : filter (idx_contact_window t) g <> [])
      by (rewrite W; discriminate).
    assert (Hne' : filter (idx_contact_window t) g' <> []).
    { apply filter_nonnil_ex. apply filter_nonnil_ex in Hne.
      destruct Hne as (r & Hr & Hp). exists r. auto. }
    destruct (contact_by_threshold_ok t g Hne) as (m & c & Hm & Hc & He).
    destruct (contact_by_threshold_ok t g' Hne') as (m' & c' & Hm' & Hc' & He').
    rewrite Hc, Hc'. f_equal.
    assert (Hmm : (m == m')%Q).
    { apply Qle_antisym.
      - exact (window_min_gap_le t g' g m' m Hbw Hm' Hm).
      - exact (window_min_gap_le t g g' m m' Hfw Hm Hm'). }
    assert (Hb : (Qmax (18 # 10) m + (1 # 100000)
                  == Qmax (18 # 10) m' + (1 # 100000))%Q).
    { apply Qplus_inj_r. apply Q.max_compat; [reflexivity | exact Hmm]. }
    apply Z.le_antisymm.
    + eapply (earliest_within_le t g g'); [exact Hfw | exact Hb | exact He
                                           | exact He'].
    + eapply (earliest_within_le t g' g); [exact Hbw | symmetry; exact Hb
                                           | exact He' | exact He].
Qed.

(** X3.  The threshold search does not depend on the order of the rows: it looks
    at the set of in-window rows and orders the candidates by frameId. *)
Theorem threshold_search_row_order_insensitive t g g' :
  Permutation g g' ->
  contact_by_threshold t g' = contact_by_threshold t g.
Proof.
  exact (contact_by_threshold_Permutation t g g').
Qed.

Lemma threshold_search_row_order_insensitive_scenario_C :
  contact_by_threshold 60 (rev play_trip) = contact_by_threshold 60 play_trip.
Proof.
  apply (threshold_search_row_order_insensitive 60 play_trip (rev play_trip)).
  apply Permutation_rev.
Defined.

(** X4.  With at most one [tackle] row and at most one [first_contact] row the
    whole detector is insensitive to the order of the rows. *)
Theorem detector_row_order_insensitive g g' :
  Permutation g g' ->
  (List.length (filter (event_is "tackle") g) <= 1)%nat ->
  (List.length (filter (event_is "first_contact") g) <= 1)%nat ->
  _get_tackle_window_data g' = _get_tackle_window_data g.
Proof.
  intros HP Ht Hf.
  pose proof (Permutation_short_eq _ _ (filter_Permutation _ _ _ HP) Ht) as Et.
  pose proof (Permutation_short_eq _ _ (filter_Permutation _ _ _ HP) Hf) as Ef.
  unfold _get_tackle_window_data. rewrite Et.
  destruct (iloc0 (filter (event_is "tackle") g)) as [tk|e];
    cbn [bind]; [|reflexivity].
  rewrite Ef.
  rewrite (Permutation_length
             (filter_Permutation
                (fun r => idx_contact_window (GapSample.frameId tk) r
                          && event_is "first_contact" r) _ _
                (Permutation_sym HP))).
  rewrite (contact_by_threshold_Permutation _ g g' HP).
  reflexivity.
Qed.

Lemma detector_row_order_insensitive_scenario_B :
  _get_tackle_window_data (rev play_first_contact_far)
  = _get_tackle_window_data play_first_contact_far.
Proof.
  apply (detector_row_order_insensitive play_first_contact_far
           (rev play_first_contact_far)).
  - apply Permutation_rev.
  - simpl. lia.
  - simpl. lia.
Defined.

(** ** Lookups by frame *)

(** A label present in the series: every column read with [.loc] comes from
    one and the same row. *)
Lemma loc_present g k :
  (exists r, In r g /\ GapSample.frameId r = k) ->
  exists r0, In r0 g /\ GapSample.frameId r0 = k
             /\ forall (A : Type) (col : GapSample.t -> A),
                  loc col g k = Ok (col r0).
Proof.
  intros (r & Hr & Hk).
  destruct (filter (fun r => GapSample.frameId r =? k) g) as [|r0 l] eqn:F.
  - exfalso. apply (proj1 (filter_nil_iff _ _) F) in Hr.
    apply Z.eqb_neq in Hr. contradiction.
  - assert (Hin : In r0 (filter (fun r => GapSample.frameId r =? k) g))
      by (rewrite F; now left).
    apply filter_In in Hin. destruct Hin as [Hin Heq]. apply Z.eqb_eq in Heq.
    exists r0. split; [exact Hin|]. split; [exact Heq|].
    intros A col. unfold loc. rewrite F. reflexivity.
Qed.

(** A label absent from the series raises [KeyError] with that label. *)
Lemma loc_absent {A : Type} (col : GapSample.t -> A) g k :
  (forall r, In r g -> GapSample.frameId r <> k) ->
  loc col g k = Raise (KeyError k).
Proof.
  intro H. unfold loc.
  replace (filter (fun r => GapSample.frameId r =? k) g)
    with (@nil GapSample.t); [reflexivity|].
  symmetry. apply filter_nil_iff. intros r Hr. apply Z.eqb_neq. now apply H.
Qed.

Lemma frames_from_one_rows g k :
  frames_from_one g ->
  (exists r, In r g /\ GapSample.frameId r = k)
  <-> 1 <= k <= Z.of_nat (List.length g).
Proof.
  unfold frames_from_one. intro H.
  assert (Hk : In k (map GapSample.frameId g)
               <-> 1 <= k <= Z.of_nat (List.length g)).
  { rewrite H, in_map_iff. split.
    - intros (n & <- & Hn). apply in_seq in Hn. lia.
    - intros Hb. exists (Z.to_nat k). split; [lia|]. apply in_seq. lia. }
  rewrite <- Hk, in_map_iff. split.
  - intros (r & Hr & Hf). eauto.
  - intros (r & Hf & Hr). eauto.
Qed.

Lemma seq_frames_increasing a n :
  Sorted Z.lt (map Z.of_nat (seq a n)).
Proof.
  revert a. induction n as [|n IH]; intro a; simpl; [constructor|].
  constructor; [apply IH|].
  destruct n; simpl; constructor. lia.
Qed.

Lemma increasing_frames_wf g :
  Sorted Z.lt (map GapSample.frameId g) -> gap_series_wf g.
Proof.
  unfold gap_series_wf.
  induction g as [|a g IH]; simpl; intro H; [constructor|].
  inversion H as [|? ? Hs Hhd]; subst.
  constructor; [now apply IH|].
  destruct g as [|b g]; simpl in *; constructor.
  now inversion Hhd.
Qed.

Lemma frames_from_one_wf g : frames_from_one g -> gap_series_wf g.
Proof.
  intro H. apply increasing_frames_wf. rewrite H. apply seq_frames_increasing.
Qed.

(** ** When the metrics calculator returns *)

Section MetricsRuns.

Variable np_sqrt : Q -> Q.

Lemma metrics_lookup_cases g w :
  _get_tackle_window_data g = Ok w ->
  let path_start := Z.max 1 (TackleWindow.contactFrameId w - 30) in
  let before_tackle := TackleWindow.tackleFrameId w - 1 in
  ((forall r, In r g -> GapSample.frameId r <> path_start) ->
   tackle_metrics_of np_sqrt g = Raise (KeyError path_start))
  /\ ((exists r, In r g /\ GapSample.frameId r = path_start) ->
      (forall r, In r g -> GapSample.frameId r <> before_tackle) ->
      tackle_metrics_of np_sqrt g = Raise (KeyError before_tackle))
  /\ ((exists r, In r g /\ GapSample.frameId r = path_start) ->
      (exists r, In r g /\ GapSample.frameId r = before_tackle) ->
      exists rec, tackle_metrics_of np_sqrt g = Ok rec
                  /\ TackleMetrics.contactFrameId rec
                     = TackleWindow.contactFrameId w
                  /\ TackleMetrics.tackleFrameId rec
                     = TackleWindow.tackleFrameId w).
Proof.
  intros Hw path_start before_tackle.
  destruct (detector_window_rows g w Hw)
    as ((tk & _ & Htk_in & Htk) & (rc & Hrc_in & Hrc & _)).
  destruct (loc_present g (TackleWindow.contactFrameId w))
    as (c0 & _ & _ & Hloc_c); [eauto|].
  destruct (loc_present g (TackleWindow.tackleFrameId w))
    as (t0 & _ & _ & Hloc_t); [eauto|].
  assert (Hhead : exists r0 rest, g = r0 :: rest).
  { destruct g as [|r0 rest]; [contradiction | eauto]. }
  destruct Hhead as (r0 & rest & Hg).
  assert (Hfirst : forall (A : Type) (col : GapSample.t -> A),
            iloc0 (map col g) = Ok (col r0))
    by (intros A col; rewrite Hg; reflexivity).
  unfold tackle_metrics_of. rewrite Hw. cbn [bind].
  fold path_start before_tackle.
  rewrite !Hloc_c. cbn [bind].
  split; [|split].
  - intro Habs. rewrite (loc_absent GapSample.x_t g path_start Habs).
    reflexivity.
  - intros Hps Habs.
    destruct (loc_present g path_start Hps) as (p0 & _ & _ & Hloc_p).
    rewrite !Hloc_p. cbn [bind].
    rewrite !Hfirst. cbn [bind].
    rewrite (loc_absent GapSample.s_downfield g before_tackle Habs).
    reflexivity.
  - intros Hps Hbt.
    destruct (loc_present g path_start Hps) as (p0 & _ & _ & Hloc_p).
    destruct (loc_present g before_tackle Hbt) as (b0 & _ & _ & Hloc_b).
    rewrite !Hloc_p. cbn [bind].
    rewrite !Hfirst. cbn [bind].
    rewrite !Hloc_b. cbn [bind]. rewrite !Hloc_t. cbn [bind].
    eexists. split; [reflexivity|]. split; reflexivity.
Qed.

(** X5.  After a successful detection the calculator can fail in two places only:
    the lookup of the path-start frame [max(1, contact - 30)] and the lookup
    of the frame before the tackle.  Each raises [KeyError] with the missing
    frame; with both frames in the series a record is returned. *)
Theorem metrics_raise_KeyError_on_missing_frame g w :
  _get_tackle_window_data g = Ok w ->
  let path_start := Z.max 1 (TackleWindow.contactFrameId w - 30) in
  let before_tackle := TackleWindow.tackleFrameId w - 1 in
  ((forall r, In r g -> GapSample.frameId r <> path_start) ->
   tackle_metrics_of np_sqrt g = Raise (KeyError path_start))
  /\ ((exists r, In r g /\ GapSample.frameId r = path_start) ->
      (forall r, In r g -> GapSample.frameId r <> before_tackle) ->
      tackle_metrics_of np_sqrt g = Raise (KeyError before_tackle))
  /\ ((exists r, In r g /\ GapSample.frameId r = path_start) ->
      (exists r, In r g /\ GapSample.frameId r = before_tackle) ->
      exists rec, tackle_metrics_of np_sqrt g = Ok rec
                  /\ TackleMetrics.contactFrameId rec
                     = TackleWindow.contactFrameId w
                  /\ TackleMetrics.tackleFrameId rec
                     = TackleWindow.tackleFrameId w).
Proof.
  exact (metrics_lookup_cases g w).
Qed.

(** X6.  On a series that carries the frames 1, 2, ..., n without a hole the
    calculator returns a record whenever the detector returns a window. *)
Theorem metrics_return_on_frames_from_one g w :
  frames_from_one g ->
  _get_tackle_window_data g = Ok w ->
  exists rec, tackle_metrics_of np_sqrt g = Ok rec
              /\ TackleMetrics.contactFrameId rec
                 = TackleWindow.contactFrameId w
              /\ TackleMetrics.tackleFrameId rec
                 = TackleWindow.tackleFrameId w.
Proof.
  intros Hf Hw.
  pose proof (detector_contact_before_tackle g w (frames_from_one_wf g Hf) Hw)
    as Hlt.
  destruct (detector_window_rows g w Hw)
    as ((tk & _ & Htk_in & Htk) & (rc & Hrc_in & Hrc & _)).
  assert (Hc : 1 <= TackleWindow.contactFrameId w
               <= Z.of_nat (List.length g))
    by (apply (frames_from_one_rows g _ Hf); eauto).
  assert (Ht : 1 <= TackleWindow.tackleFrameId w
               <= Z.of_nat (List.length g))
    by (apply (frames_from_one_rows g _ Hf); eauto).
  apply (metrics_lookup_cases g w Hw).
  - apply (frames_from_one_rows g _ Hf). lia.
  - apply (frames_from_one_rows g _ Hf). lia.
Qed.

End MetricsRuns.

Lemma metrics_raise_KeyError_on_missing_frame_scenario_A :
  tackle_metrics_of approx_sqrt play_first_contact_close
  = Raise (KeyError 20).
Proof.
  apply (metrics_raise_KeyError_on_missing_frame approx_sqrt
           play_first_contact_close (TackleWindow.mk 60 50) eq_refl).
  intros r Hr. simpl in Hr.
  repeat (destruct Hr as [<-|Hr]; [discriminate|]). contradiction.
Defined.

Lemma play_two_contacts_frames_from_one : frames_from_one play_two_contacts.
Proof. reflexivity. Qed.

Lemma metrics_return_on_frames_from_one_two_contacts :
  exists rec, tackle_metrics_of approx_sqrt play_two_contacts = Ok rec
              /\ TackleMetrics.contactFrameId rec = 2
              /\ TackleMetrics.tackleFrameId rec = 5.
Proof.
  exact (metrics_return_on_frames_from_one approx_sqrt play_two_contacts
           (TackleWindow.mk 5 2) play_two_contacts_frames_from_one eq_refl).
Defined.

(** ** The fields of a metrics record *)

Section MetricsFields.

Variable np_sqrt : Q -> Q.

Lemma tackle_metrics_of_fields g rec :
  tackle_metrics_of np_sqrt g = Ok rec ->
  let c := TackleMetrics.contactFrameId rec in
  let t := TackleMetrics.tackleFrameId rec in
  TackleMetrics.d_actual rec
  = series_sum
      (map GapSample.dis_t
           (filter (fun r => (Z.max 1 (c - 30) <? GapSample.frameId r)
                             && (GapSample.frameId r <=? c)) g))
  /\ iloc0 (map GapSample.weight g) = Ok (TackleMetrics.w_carrier rec)
  /\ iloc0 (map GapSample.weight_t g) = Ok (TackleMetrics.w_tackler rec)
  /\ (exists sc stm1,
        loc GapSample.s_downfield g c = Ok sc
        /\ loc GapSample.s_downfield g (t - 1) = Ok stm1
        /\ TackleMetrics.s_downfield_delta rec
           = fsub (Fin stm1)
                  (fdiv (fmul (Fin sc) (TackleMetrics.w_carrier rec))
                        (fadd (TackleMetrics.w_carrier rec)
                              (TackleMetrics.w_tackler rec))))
  /\ loc GapSample.s g c = Ok (TackleMetrics.s_contact rec)
  /\ loc GapSample.gap g t = Ok (TackleMetrics.gap_tackle rec).
Proof.
  intro H. unfold tackle_metrics_of in H.
  bind_inv H. injection H as <-. cbn.
  repeat split; eauto.
Qed.

(** X7.  Scenario D from the code: when the contact frame is frame 1 (or
    earlier), no row lies in [(pathStart, contact]], so d_actual is the
    empty sum 0 and d_eff is [nan]. *)
Theorem no_lead_up_gives_nan_efficiency g rec :
  tackle_metrics_of np_sqrt g = Ok rec ->
  TackleMetrics.contactFrameId rec <= 1 ->
  TackleMetrics.d_actual rec = 0%Q /\ TackleMetrics.d_eff rec = NaN.
Proof.
  intros H Hc.
  destruct (tackle_metrics_of_fields g rec H) as (Hd & _).
  destruct (tackle_metrics_of_inv np_sqrt g rec H)
    as (w & _ & _ & _ & _ & _ & He).
  assert (Hz : TackleMetrics.d_actual rec = 0%Q).
  { rewrite Hd.
    replace (filter _ g) with (@nil GapSample.t); [reflexivity|].
    symmetry. apply filter_nil_iff. intros r _.
    apply andb_false_iff.
    destruct (Z.max 1 (TackleMetrics.contactFrameId rec - 30)
              <? GapSample.frameId r) eqn:E; [right | now left].
    apply Z.ltb_lt in E. apply Z.leb_gt. lia. }
  split; [exact Hz|]. rewrite He, Hz. reflexivity.
Qed.




End MetricsFields.

Lemma no_lead_up_gives_nan_efficiency_scenario_D :
  match tackle_metrics_of approx_sqrt play_no_lead_up with
  | Ok rec => TackleMetrics.d_actual rec = 0%Q /\ TackleMetrics.d_eff rec = NaN
  | Raise _ => False
  end.
Proof.
  destruct (tackle_metrics_of approx_sqrt play_no_lead_up) as [rec|e] eqn:E.
  - apply (no_lead_up_gives_nan_efficiency approx_sqrt play_no_lead_up rec E).
    vm_compute in E. injection E as <-. discriminate.
  - vm_compute in E. discriminate E.
Defined.



(** ** The rows the builder makes *)

Lemma merge_inner_In {A B C : Type} (on : A -> B -> bool)
  (combine : A -> B -> C) (left : list A) (right : list B) (c : C) :
  In c (merge_inner on combine left right)
  <-> exists l r, In l left /\ In r right /\ on l r = true
                  /\ c = combine l r.
Proof.
  unfold merge_inner. rewrite in_flat_map. split.
  - intros (l & Hl & Hc). apply in_map_iff in Hc.
    destruct Hc as (r & <- & Hr). apply filter_In in Hr.
    exists l, r. tauto.
  - intros (l & r & Hl & Hr & Hon & ->). exists l. split; [exact Hl|].
    apply in_map. apply filter_In. auto.
Qed.

Lemma merge_left_In {A B C : Type} (on : A -> B -> bool)
  (combine : A -> option B -> C) (left : list A) (right : list B) (c : C) :
  In c (merge_left on combine left right)
  <-> exists l, In l left
                /\ ((exists r, In r right /\ on l r = true
                                /\ c = combine l (Some r))
                    \/ ((forall r, In r right -> on l r = false)
                        /\ c = combine l None)).
Proof.
  unfold merge_left. rewrite in_flat_map. split.
  - intros (l & Hl & Hc). exists l. split; [exact Hl|].
    destruct (filter (on l) right) as [|m ms] eqn:F.
    + right. destruct Hc as [<-|[]].
      split; [|reflexivity]. now apply filter_nil_iff.
    + left. apply in_map_iff in Hc. destruct Hc as (r & <- & Hr).
      rewrite <- F in Hr. apply filter_In in Hr. exists r. tauto.
  - intros (l & Hl & [(r & Hr & Hon & ->) | (Hnone & ->)]);
      exists l; (split; [exact Hl|]).
    + assert (Hin : In r (filter (on l) right)) by (apply filter_In; auto).
      destruct (filter (on l) right) as [|m ms]; [contradiction|].
      apply (in_map (fun m => combine l (Some m))). exact Hin.
    + apply filter_nil_iff in Hnone. rewrite Hnone. now left.
Qed.

Lemma add_player_weight_In df player_df r w :
  In (r, w) (add_player_weight df player_df)
  <-> In r df /\ roster_weight player_df r w.
Proof.
  unfold add_player_weight. rewrite merge_left_In. unfold roster_weight.
  split.
  - intros (l & Hl & [(p & Hp & Hon & Heq) | (Hnone & Heq)]);
      injection Heq as <- ->; (split; [exact Hl|]).
    + left. exists p. apply Z.eqb_eq in Hon. auto.
    + right. split; [|reflexivity]. intros p Hp Heq.
      specialize (Hnone p Hp). apply Z.eqb_neq in Hnone. congruence.
  - intros (Hr & [(p & Hp & Hid & ->) | (Hnone & ->)]);
      exists r; (split; [exact Hr|]).
    + left. exists p. split; [exact Hp|]. split; [|reflexivity].
      apply Z.eqb_eq. congruence.
    + right. split; [|reflexivity]. intros p Hp. apply Z.eqb_neq.
      intro Heq. apply (Hnone p Hp). congruence.
Qed.

(** The merges as nested loops. *)

Lemma flat_map_flat_map {A B C : Type} (f : A -> list B) (g : B -> list C)
  (l : list A) :
  flat_map g (flat_map f l) = flat_map (fun a => flat_map g (f a)) l.
Proof.
  induction l as [|a l IH]; simpl; [reflexivity|].
  now rewrite flat_map_app, IH.
Qed.

Lemma flat_map_filter {A B : Type} (p : A -> bool) (g : A -> list B)
  (l : list A) :
  flat_map g (filter p l) = flat_map (fun a => if p a then g a else []) l.
Proof.
  induction l as [|a l IH]; simpl; [reflexivity|].
  destruct (p a); simpl; now rewrite IH.
Qed.

Lemma map_filter_loop {A B : Type} (p : A -> bool) (f : A -> B)
  (l : list A) :
  map f (filter p l) = flat_map (fun a => if p a then [f a] else []) l.
Proof.
  induction l as [|a l IH]; simpl; [reflexivity|].
  destruct (p a); simpl; now rewrite IH.
Qed.

Lemma merge_inner_loop {A B C : Type} (on : A -> B -> bool)
  (combine : A -> B -> C) (left : list A) (right : list B) :
  merge_inner on combine left right
  = flat_map (fun l =>
                flat_map (fun r => if on l r then [combine l r] else [])
                         right) left.
Proof.
  unfold merge_inner. apply flat_map_ext. intro l. apply map_filter_loop.
Qed.

Lemma add_player_weight_loop df player_df :
  add_player_weight df player_df
  = flat_map (fun r => map (pair r) (weights_of player_df r)) df.
Proof.
  unfold add_player_weight, merge_left, weights_of.
  apply flat_map_ext. intro r.
  destruct (filter _ player_df) as [|m ms]; [reflexivity|].
  rewrite map_map. reflexivity.
Qed.

(** The carrier's frame of the builder, [ballcarrier_df]. *)
Lemma ballcarrier_df_loop track_df play_df player_df :
  add_player_weight
    (merge_inner
       (fun r p =>
          (TrackingFrame.gameId r =? PlayMetadata.gameId p)
          && (TrackingFrame.playId r =? PlayMetadata.playId p)
          && (TrackingFrame.nflId r =? PlayMetadata.ballCarrierId p))
       (fun r _ => r) track_df play_df) player_df
  = carrier_rows track_df play_df player_df.
Proof.
  rewrite add_player_weight_loop, merge_inner_loop, flat_map_flat_map.
  unfold carrier_rows. apply flat_map_ext. intro r.
  rewrite flat_map_flat_map. apply flat_map_ext. intro p.
  destruct (_ && _); simpl; [apply app_nil_r | reflexivity].
Qed.

(** The tackler's frame of the builder, [tackler_df]. *)
Lemma tackler_df_loop track_df tackle_df player_df :
  add_player_weight
    (merge_inner
       (fun r k =>
          (TrackingFrame.gameId r =? TackleAttribution.gameId k)
          && (TrackingFrame.playId r =? TackleAttribution.playId k)
          && (TrackingFrame.nflId r =? TackleAttribution.nflId k))
       (fun r _ => r) track_df
       (filter (fun k => TackleAttribution.tackle k =? 1) tackle_df))
    player_df
  = tackler_rows track_df tackle_df player_df.
Proof.
  rewrite add_player_weight_loop, merge_inner_loop, flat_map_flat_map.
  unfold tackler_rows. apply flat_map_ext. intro r.
  rewrite flat_map_filter, flat_map_flat_map. apply flat_map_ext. intro k.
  destruct (TackleAttribution.tackle k =? 1); simpl; [|reflexivity].
  destruct (_ && _); simpl; [apply app_nil_r | reflexivity].
Qed.

Section BuilderRows.

Variable np_sqrt : Q -> Q.
Variable np_sin_deg : Q -> Q.

(** What the builder returns when it returns. *)
Lemma builder_returns track_df play_df tackle_df player_df series :
  _get_tackle_components_vs_time np_sqrt np_sin_deg track_df play_df tackle_df player_df = Ok series ->
  exists r0 rest,
    track_df = r0 :: rest /\ TrackingFrame.playDirection r0 = "right"
    /\ forall s,
         In s series
         <-> exists bc t,
               In bc (add_player_weight
                        (merge_inner
                           (fun r p =>
                              (TrackingFrame.gameId r =? PlayMetadata.gameId p)
                              && (TrackingFrame.playId r
                                  =? PlayMetadata.playId p)
                              && (TrackingFrame.nflId r
                                  =? PlayMetadata.ballCarrierId p))
                           (fun r _ => r) track_df play_df) player_df)
               /\ In t (add_player_weight
                          (merge_inner
                             (fun r k =>
                                (TrackingFrame.gameId r
                                 =? TackleAttribution.gameId k)
                                && (TrackingFrame.playId r
                                    =? TackleAttribution.playId k)
                                && (TrackingFrame.nflId r
                                    =? TackleAttribution.nflId k))
                             (fun r _ => r) track_df
                             (filter (fun k => TackleAttribution.tackle k =? 1)
                                     tackle_df)) player_df)
               /\ same_frame (fst bc) (fst t)
               /\ s = outcome_row np_sqrt np_sin_deg bc t.
Proof.
  unfold _get_tackle_components_vs_time.
  destruct track_df as [|r0 rest]; [discriminate|].
  cbn [map iloc0 bind].
  destruct (String.eqb (TrackingFrame.playDirection r0) "right") eqn:E;
    cbn [negb]; [|discriminate].
  intro H. injection H as <-.
  exists r0, rest. split; [reflexivity|].
  split; [now apply String.eqb_eq|].
  intro s. rewrite merge_inner_In. unfold same_frame.
  split; intros (bc & t & Hbc & Ht & Hon & Hs); exists bc, t;
    (split; [exact Hbc|]); (split; [exact Ht|]); (split; [|exact Hs]).
  - rewrite !andb_true_iff, !Z.eqb_eq in Hon. tauto.
  - rewrite !andb_true_iff, !Z.eqb_eq. tauto.
Qed.

Lemma builder_join_rows track_df play_df tackle_df player_df
  series :
  _get_tackle_components_vs_time np_sqrt np_sin_deg track_df play_df tackle_df player_df = Ok series ->
  forall s,
    In s series
    <-> exists r w r_t w_t,
          is_ball_carrier track_df play_df r
          /\ is_credited_tackler track_df tackle_df r_t
          /\ same_frame r r_t
          /\ roster_weight player_df r w
          /\ roster_weight player_df r_t w_t
          /\ s = outcome_row np_sqrt np_sin_deg (r, w) (r_t, w_t).
Proof.
  intros H s.
  destruct (builder_returns _ _ _ _ _ H) as (r0 & rest & _ & _ & Hin).
  rewrite Hin. clear Hin. split.
  - intros ([r w] & [r_t w_t] & Hbc & Ht & Hsame & Hs).
    apply add_player_weight_In in Hbc. destruct Hbc as [Hbc Hw].
    apply add_player_weight_In in Ht. destruct Ht as [Ht Hw_t].
    apply merge_inner_In in Hbc.
    destruct Hbc as (l & p & Hl & Hp & Hon & ->).
    apply merge_inner_In in Ht.
    destruct Ht as (l_t & k & Hl_t & Hk & Hon_t & ->).
    apply filter_In in Hk. destruct Hk as [Hk Hk1].
    rewrite !andb_true_iff, !Z.eqb_eq in Hon, Hon_t.
    apply Z.eqb_eq in Hk1.
    exists l, w, l_t, w_t.
    split; [split; [exact Hl | exists p; tauto]|].
    split; [split; [exact Hl_t | exists k; tauto]|].
    auto.
  - intros (r & w & r_t & w_t & (Hr & p & Hp & Hpg & Hpp & Hpn)
            & (Hr_t & k & Hk & Hk1 & Hkg & Hkp & Hkn) & Hsame & Hw & Hw_t
            & Hs).
    exists (r, w), (r_t, w_t).
    split; [|split; [|split; [exact Hsame | exact Hs]]].
    + apply add_player_weight_In. split; [|exact Hw].
      apply merge_inner_In. exists r, p.
      rewrite !andb_true_iff, !Z.eqb_eq. repeat split; auto.
    + apply add_player_weight_In. split; [|exact Hw_t].
      apply merge_inner_In. exists r_t, k.
      rewrite filter_In, !andb_true_iff, !Z.eqb_eq. repeat split; auto.
Qed.

(** X10.  When the builder returns, its series is the nested-loop join, row
    for row in this order and with these multiplicities: for each tracking
    row in row order, once for each [play_df] row that names its player as
    ball carrier and each roster weight of his (one null weight without a
    roster row), and for each such carrier row, for each tracking row in row
    order of the same gameId, playId and frameId, once for each [tackle_df]
    row with [tackle == 1] that names its player and each roster weight of
    his, one row of the series.  In particular a row is in the series
    exactly when it is made from a ball-carrier row and a credited-tackler
    row of the same frame with weights the roster gives them. *)
Theorem builder_rows_are_the_join track_df play_df tackle_df player_df
  series :
  _get_tackle_components_vs_time np_sqrt np_sin_deg track_df play_df
    tackle_df player_df = Ok series ->
  series = join_rows np_sqrt np_sin_deg track_df play_df tackle_df player_df
  /\ forall s,
       In s series
       <-> exists r w r_t w_t,
             is_ball_carrier track_df play_df r
             /\ is_credited_tackler track_df tackle_df r_t
             /\ same_frame r r_t
             /\ roster_weight player_df r w
             /\ roster_weight player_df r_t w_t
             /\ s = outcome_row np_sqrt np_sin_deg (r, w) (r_t, w_t).
Proof.
  intro H.
  split; [|exact (builder_join_rows track_df play_df tackle_df player_df
                    series H)].
  unfold _get_tackle_components_vs_time in H.
  bind_inv H.
  destruct (negb _); [discriminate|]. injection H as <-.
  rewrite ballcarrier_df_loop, tackler_df_loop, merge_inner_loop.
  reflexivity.
Qed.

(** X11.  When [util_play_contains_tackle] answers False for the tracking rows,
    [prep_get_tackle_metrics] returns no record for them: the events of the
    series are events of tracking rows, so the detector finds no tackle. *)
Theorem no_tackle_label_no_record track_df play_df tackle_df player_df :
  util_play_contains_tackle track_df = Ok false ->
  forall rec,
    prep_get_tackle_metrics np_sqrt np_sin_deg track_df play_df tackle_df
      player_df
    <> Ok rec.
Proof.
  intros Hu rec H.
  unfold util_play_contains_tackle in Hu.
  destruct (_ || _)%bool; [discriminate|].
  injection Hu as Hu.
  assert (Hnone : forall r, In r track_df ->
                            TrackingFrame.event r <> Some "tackle").
  { intros r Hr He.
    destruct (filter _ track_df) as [|a l] eqn:F; [|discriminate].
    apply (proj1 (filter_nil_iff _ _) F) in Hr. rewrite He in Hr.
    discriminate. }
  unfold prep_get_tackle_metrics in H.
  destruct (_get_tackle_components_vs_time np_sqrt np_sin_deg track_df
              play_df tackle_df player_df) as [series|e] eqn:B;
    cbn [bind] in H; [|discriminate].
  destruct (tackle_metrics_of_inv _ _ _ H) as (w & Hw & _).
  destruct (detector_window_rows _ _ Hw) as ((tk & Htk & Htk_in & _) & _).
  assert (Hev : event_is "tackle" tk = true).
  { unfold first_with_event in Htk.
    destruct (filter (event_is "tackle") series) as [|a l] eqn:F;
      [discriminate|].
    injection Htk as ->.
    assert (In tk (filter (event_is "tackle") series))
      by (rewrite F; now left).
    apply filter_In in H0. tauto. }
  apply (builder_join_rows _ _ _ _ _ B) in Htk_in.
  destruct Htk_in as (r & w0 & r_t & w_t & (Hr & _) & _ & _ & _ & _ & ->).
  unfold event_is in Hev. cbn in Hev.
  destruct (TrackingFrame.event r) as [e|] eqn:Ee; [|discriminate].
  apply String.eqb_eq in Hev. subst e. exact (Hnone r Hr Ee).
Qed.

(** X12.  The empty cases.  Without a tracking row the builder raises the
    [IndexError] of its first [.iloc[0]].  With rows in the "right"
    direction but no ball-carrier row, or no row of a credited tackler, the
    join is empty: the builder returns the empty series and
    [prep_get_tackle_metrics] raises [IndexError]. *)
Theorem empty_join_raises_IndexError play_df tackle_df player_df :
  (_get_tackle_components_vs_time np_sqrt np_sin_deg [] play_df tackle_df player_df = Raise IndexError
   /\ prep_get_tackle_metrics np_sqrt np_sin_deg [] play_df tackle_df
        player_df = Raise IndexError)
  /\ forall r0 rest,
       TrackingFrame.playDirection r0 = "right" ->
       (forall r, ~ is_ball_carrier (r0 :: rest) play_df r)
       \/ (forall r, ~ is_credited_tackler (r0 :: rest) tackle_df r) ->
       _get_tackle_components_vs_time np_sqrt np_sin_deg (r0 :: rest) play_df tackle_df player_df = Ok []
       /\ prep_get_tackle_metrics np_sqrt np_sin_deg (r0 :: rest) play_df
            tackle_df player_df = Raise IndexError.
Proof.
  split; [split; reflexivity|].
  intros r0 rest Hdir Hnone.
  assert (B : _get_tackle_components_vs_time np_sqrt np_sin_deg (r0 :: rest) play_df tackle_df player_df = Ok []).
  { destruct (_get_tackle_components_vs_time np_sqrt np_sin_deg (r0 :: rest) play_df tackle_df player_df)
      as [series|e] eqn:B.
    - f_equal. destruct series as [|s l]; [reflexivity|]. exfalso.
      destruct (proj1 (builder_join_rows _ _ _ _ _ B s)
                  (or_introl eq_refl))
        as (r & w & r_t & w_t & Hbc & Ht & _).
      destruct Hnone as [Hn | Hn]; [exact (Hn r Hbc) | exact (Hn r_t Ht)].
    - exfalso. unfold _get_tackle_components_vs_time in B.
      cbn [map iloc0 bind] in B.
      apply String.eqb_eq in Hdir. rewrite Hdir in B. discriminate. }
  split; [exact B|].
  unfold prep_get_tackle_metrics. rewrite B. reflexivity.
Qed.

End BuilderRows.

Lemma builder_rows_are_the_join_play_56 :
  match _get_tackle_components_vs_time approx_sqrt approx_sin_deg track_56
          plays_example tackles_example players_example with
  | Ok series =>
      series = join_rows approx_sqrt approx_sin_deg track_56 plays_example
                 tackles_example players_example
      /\ map GapSample.frameId series = [1; 2; 3; 4; 5]
      /\ In (outcome_row approx_sqrt approx_sin_deg
               (carrier_56 4, Fin 210)
               (track 56 22 4 (523 # 10) 20 270 None "right", Fin 240))
            series
  | Raise _ => False
  end.
Proof.
  destruct (_get_tackle_components_vs_time approx_sqrt approx_sin_deg
              track_56 plays_example tackles_example players_example)
    as [series|e] eqn:E.
  - destruct (builder_rows_are_the_join approx_sqrt approx_sin_deg _ _ _ _ _
                E) as [Heq Hin].
    split; [exact Heq|]. split.
    + vm_compute in E. injection E as <-. reflexivity.
    + apply Hin.
      exists (carrier_56 4), (Fin 210),
             (track 56 22 4 (523 # 10) 20 270 None "right"), (Fin 240).
      split; [split; [simpl; tauto|]|].
      { exists (PlayMetadata.mk 2022091100 56 11). simpl. tauto. }
      split; [split; [simpl; tauto|]|].
      { exists (TackleAttribution.mk 2022091100 56 22 1). simpl. tauto. }
      split; [repeat split|].
      split; [left; exists (PlayerRoster.mk 11 210); simpl; tauto|].
      split; [left; exists (PlayerRoster.mk 22 240); simpl; tauto|].
      reflexivity.
  - vm_compute in E. discriminate E.
Defined.

Lemma no_tackle_label_no_record_cut_off_play :
  match prep_get_tackle_metrics approx_sqrt approx_sin_deg
          track_56_before_tackle plays_example tackles_example
          players_example with
  | Ok _ => False
  | Raise _ => True
  end.
Proof.
  destruct (prep_get_tackle_metrics approx_sqrt approx_sin_deg
              track_56_before_tackle plays_example tackles_example
              players_example) as [rec|e] eqn:E; [|exact I].
  exact (no_tackle_label_no_record approx_sqrt approx_sin_deg
           track_56_before_tackle plays_example tackles_example
           players_example eq_refl rec E).
Defined.

Lemma empty_join_raises_IndexError_no_attribution :
  _get_tackle_components_vs_time approx_sqrt approx_sin_deg track_56
    plays_example [] players_example = Ok []
  /\ prep_get_tackle_metrics approx_sqrt approx_sin_deg track_56
       plays_example [] players_example = Raise IndexError.
Proof.
  apply (proj2 (empty_join_raises_IndexError approx_sqrt approx_sin_deg
                  plays_example [] players_example)
           (carrier_56 1)
           (map carrier_56 [2; 3; 4; 5] ++ tackler_56 "right")).
  - reflexivity.
  - right. intros r (_ & k & Hk & _). exact Hk.
Defined.

(** ** More on direction normalization *)

Lemma mod360_range a : (0 <= mod360 a /\ mod360 a < 360)%Q.
Proof.
  unfold mod360.
  pose proof (Qfloor_le (a / 360)) as H1.
  pose proof (Qlt_floor (a / 360)) as H2.
  rewrite inject_Z_plus in H2. change (inject_Z 1) with 1%Q in H2.
  assert (Ha : (a == 360 * (a / 360))%Q) by field.
  set (u := (a / 360)%Q) in *. set (f := inject_Z (Qfloor u)) in *.
  split; lra.
Qed.

(** X14.  The transform keeps a row on the field, x in [[0, 120]] and y in
    [[0, 53.3]], and the angles it writes are in [[0, 360)]. *)
Theorem transform_keeps_rows_on_field r :
  let r' := transform_row r in
  ((0 <= TrackingFrame.x r <= 120)%Q -> (0 <= TrackingFrame.x r' <= 120)%Q)
  /\ ((0 <= TrackingFrame.y r <= 533 # 10)%Q ->
      (0 <= TrackingFrame.y r' <= 533 # 10)%Q)
  /\ (TrackingFrame.playDirection r = "left" ->
      (0 <= TrackingFrame.o r' < 360)%Q
      /\ (0 <= TrackingFrame.dir r' < 360)%Q).
Proof.
  unfold transform_row.
  destruct (String.eqb (TrackingFrame.playDirection r) "left") eqn:E; cbn.
  - unfold FIELD_SIZE_X, FIELD_SIZE_Y.
    split; [intro; lra|]. split; [intro; lra|].
    intros _. split; apply mod360_range.
  - split; [auto|]. split; [auto|].
    intro H. apply String.eqb_eq in H. congruence.
Qed.

Lemma transform_keeps_rows_on_field_row_moving_left :
  (0 <= TrackingFrame.x (transform_row row_moving_left) <= 120)%Q
  /\ (0 <= TrackingFrame.y (transform_row row_moving_left) <= 533 # 10)%Q
  /\ (0 <= TrackingFrame.o (transform_row row_moving_left) < 360)%Q
  /\ (0 <= TrackingFrame.dir (transform_row row_moving_left) < 360)%Q.
Proof.
  destruct (transform_keeps_rows_on_field row_moving_left) as (Hx & Hy & Ha).
  split; [apply Hx; split; discriminate|].
  split; [apply Hy; split; discriminate|].
  exact (Ha eq_refl).
Defined.

Lemma transform_row_keeps r :
  let r' := transform_row r in
  TrackingFrame.gameId r' = TrackingFrame.gameId r
  /\ TrackingFrame.playId r' = TrackingFrame.playId r
  /\ TrackingFrame.nflId r' = TrackingFrame.nflId r
  /\ TrackingFrame.frameId r' = TrackingFrame.frameId r
  /\ TrackingFrame.s r' = TrackingFrame.s r
  /\ TrackingFrame.dis r' = TrackingFrame.dis r
  /\ TrackingFrame.event r' = TrackingFrame.event r.
Proof.
  unfold transform_row.
  destruct (String.eqb (TrackingFrame.playDirection r) "left");
    cbn; repeat split.
Qed.

Lemma transform_row_known r :
  direction_known r -> TrackingFrame.playDirection (transform_row r) = "right".
Proof.
  intros [H | H]; unfold transform_row; rewrite H; cbn; [reflexivity|].
  exact H.
Qed.

(** X16.  The transformed frame has the rows of the input in the same order with
    the same keys, speed, distance and event; no row of it is labelled
    "left", and every row that was labelled "left" or "right" is labelled
    "right".  With [inplace] the caller's frame becomes that same frame. *)
Theorem transform_relabels_and_keeps_columns df out :
  transform_tracking_data df false = (df, Some out) ->
  fst (transform_tracking_data df true) = out
  /\ map TrackingFrame.gameId out = map TrackingFrame.gameId df
  /\ map TrackingFrame.playId out = map TrackingFrame.playId df
  /\ map TrackingFrame.nflId out = map TrackingFrame.nflId df
  /\ map TrackingFrame.frameId out = map TrackingFrame.frameId df
  /\ map TrackingFrame.s out = map TrackingFrame.s df
  /\ map TrackingFrame.dis out = map TrackingFrame.dis df
  /\ map TrackingFrame.event out = map TrackingFrame.event df
  /\ (forall r, In r out -> TrackingFrame.playDirection r <> "left")
  /\ ((forall r, In r df -> direction_known r) ->
      forall r, In r out -> TrackingFrame.playDirection r = "right").
Proof.
  unfold transform_tracking_data. intro H. injection H as <-. cbn [fst].
  split; [reflexivity|].
  repeat (split; [rewrite map_map; apply map_ext; intro r;
                  apply (transform_row_keeps r)|]).
  split.
  - intros r Hr. apply in_map_iff in Hr. destruct Hr as (r0 & <- & _).
    intro Hl. pose proof (transform_row_not_left r0) as Hn.
    rewrite Hl in Hn. discriminate.
  - intros Hk r Hr. apply in_map_iff in Hr. destruct Hr as (r0 & <- & Hr0).
    apply transform_row_known. now apply Hk.
Qed.

Lemma transform_relabels_and_keeps_columns_mixed_play :
  exists out,
    transform_tracking_data track_56_mixed_direction false
    = (track_56_mixed_direction, Some out)
    /\ map TrackingFrame.frameId out
       = map TrackingFrame.frameId track_56_mixed_direction
    /\ forall r, In r out -> TrackingFrame.playDirection r <> "left".
Proof.
  eexists. split; [reflexivity|].
  destruct (transform_relabels_and_keeps_columns track_56_mixed_direction _
              eq_refl)
    as (_ & _ & _ & _ & Hf & _ & _ & _ & Hl & _).
  split; [exact Hf | exact Hl].
Defined.

Section TransformThenBuild.

Variable np_sqrt : Q -> Q.
Variable np_sin_deg : Q -> Q.

(** X17.  After the transform the builder's direction check passes: for tracking
    rows whose first row is labelled "left" or "right", the builder returns
    a series on the transformed frame, where on the rows as they were it
    raises for a "left" first row. *)
Theorem transformed_frame_passes_direction_check r rest out play_df
  tackle_df player_df :
  direction_known r ->
  transform_tracking_data (r :: rest) false = (r :: rest, Some out) ->
  exists series,
    _get_tackle_components_vs_time np_sqrt np_sin_deg out play_df tackle_df
      player_df
    = Ok series.
Proof.
  intros Hk H. unfold transform_tracking_data in H. injection H as <-.
  unfold _get_tackle_components_vs_time. cbn [map iloc0 bind].
  rewrite (transform_row_known r Hk). cbn. eauto.
Qed.

End TransformThenBuild.

Lemma transformed_frame_passes_direction_check_row_moving_left :
  exists series,
    _get_tackle_components_vs_time approx_sqrt approx_sin_deg
      (map transform_row (row_moving_left :: tackler_56 "left"))
      plays_example tackles_example players_example
    = Ok series.
Proof.
  apply (transformed_frame_passes_direction_check approx_sqrt approx_sin_deg
           row_moving_left (tackler_56 "left")).
  - left. reflexivity.
  - reflexivity.
Defined.

(** ** More on the play-level helpers *)

Lemma unique_all_equal (l : list Z) :
  (forall v v', In v l -> In v' l -> v = v') ->
  (1 <? List.length (unique l))%nat = false.
Proof.
  intro H. destruct l as [|a t]; [reflexivity|]. simpl.
  replace (filter (fun b => negb (b =? a)) (unique t)) with (@nil Z);
    [reflexivity|].
  symmetry. apply filter_nil_iff. intros b Hb.
  apply (proj1 (unique_In _ _)) in Hb.
  apply negb_false_iff, Z.eqb_eq.
  apply H; [right; exact Hb | left; reflexivity].
Qed.

Lemma event_filter_pos (name : string) (track_df : list TrackingFrame.t) :
  (0 <? List.length
          (filter (fun r => match TrackingFrame.event r with
                            | Some e => String.eqb e name
                            | None => false
                            end) track_df))%nat = true
  <-> exists r, In r track_df /\ TrackingFrame.event r = Some name.
Proof.
  rewrite length_pos_nonnil, filter_nonnil_ex. split.
  - intros (r & Hr & He). exists r. split; [exact Hr|].
    destruct (TrackingFrame.event r) as [e|]; [|discriminate].
    apply String.eqb_eq in He. now subst.
  - intros (r & Hr & He). exists r. split; [exact Hr|].
    rewrite He. apply String.eqb_refl.
Qed.

(** X18.  On rows of a single play (and on no rows at all) the check passes and
    the helper answers whether some row carries the "tackle" label. *)
Theorem play_check_answers_on_single_play track_df :
  (forall r1 r2, In r1 track_df -> In r2 track_df ->
     TrackingFrame.gameId r1 = TrackingFrame.gameId r2
     /\ TrackingFrame.playId r1 = TrackingFrame.playId r2) ->
  exists b, util_play_contains_tackle track_df = Ok b
            /\ (b = true <-> exists r, In r track_df
                                       /\ TrackingFrame.event r
                                          = Some "tackle").
Proof.
  intro H. unfold util_play_contains_tackle.
  rewrite (unique_all_equal (map TrackingFrame.gameId track_df)).
  2:{ intros v v' Hv Hv'. apply in_map_iff in Hv, Hv'.
      destruct Hv as (r1 & <- & H1), Hv' as (r2 & <- & H2).
      now apply H. }
  rewrite (unique_all_equal (map TrackingFrame.playId track_df)).
  2:{ intros v v' Hv Hv'. apply in_map_iff in Hv, Hv'.
      destruct Hv as (r1 & <- & H1), Hv' as (r2 & <- & H2).
      now apply H. }
  cbn [orb]. eexists. split; [reflexivity|]. apply event_filter_pos.
Qed.

Lemma play_check_answers_on_single_play_play_56 :
  exists b, util_play_contains_tackle track_56 = Ok b
            /\ (b = true <-> exists r, In r track_56
                                       /\ TrackingFrame.event r
                                          = Some "tackle").
Proof.
  apply (play_check_answers_on_single_play track_56).
  intros r1 r2 H1 H2. simpl in H1, H2.
  repeat (destruct H1 as [<-|H1]; [|]); try contradiction;
    repeat (destruct H2 as [<-|H2]; [|]); try contradiction;
    split; reflexivity.
Defined.

(** X19.  [util_play_contains_qb_slide] makes the same single-play check: it
    raises on exactly the inputs on which [util_play_contains_tackle] raises,
    with the same exception, and otherwise answers whether some row carries
    the "qb_slide" label. *)
Theorem qb_slide_check_mirrors_tackle_check track_df :
  (forall e, util_play_contains_qb_slide track_df = Raise e
             <-> util_play_contains_tackle track_df = Raise e)
  /\ (forall b, util_play_contains_qb_slide track_df = Ok b ->
                (b = true <-> exists r, In r track_df
                                        /\ TrackingFrame.event r
                                           = Some "qb_slide")).
Proof.
  unfold util_play_contains_qb_slide, util_play_contains_tackle.
  destruct (_ || _)%bool.
  - split; [intro e; tauto | intros b Hb; discriminate].
  - split; [intro e; split; discriminate|].
    intros b Hb. injection Hb as <-. apply event_filter_pos.
Qed.

Lemma qb_slide_check_mirrors_tackle_check_examples :
  util_play_contains_qb_slide track_two_plays
  = Raise (ValueError_multi_play [2022091100] [56; 101])
  /\ (false = true <-> exists r, In r track_56
                                 /\ TrackingFrame.event r = Some "qb_slide").
Proof.
  split.
  - apply (proj1 (qb_slide_check_mirrors_tackle_check track_two_plays)).
    reflexivity.
  - apply (proj2 (qb_slide_check_mirrors_tackle_check track_56)).
    reflexivity.
Defined.

(** ** Frames of an event *)

Lemma key3_eqb_eq (a b : Z * Z * Z) : key3_eqb a b = true <-> a = b.
Proof.
  destruct a as [[a1 a2] a3], b as [[b1 b2] b3]. simpl.
  rewrite !andb_true_iff, !Z.eqb_eq. split.
  - intros [[-> ->] ->]. reflexivity.
  - intro H. injection H as -> -> ->. auto.
Qed.

Lemma existsb_key3 (k : Z * Z * Z) (seen : list (Z * Z * Z)) :
  existsb (key3_eqb k) seen = true <-> In k seen.
Proof.
  rewrite existsb_exists. split.
  - intros (x & Hx & He). apply key3_eqb_eq in He. now subst.
  - intro H. exists k. split; [exact H | now apply key3_eqb_eq].
Qed.

Lemma groupby_head1_spec rows :
  forall seen,
    (forall x, In x (groupby_head1 seen rows) ->
               In x rows /\ ~ In (frame_key x) seen)
    /\ NoDup (map frame_key (groupby_head1 seen rows))
    /\ (forall r, In r rows ->
                  In (frame_key r) seen
                  \/ exists x, In x (groupby_head1 seen rows)
                               /\ frame_key x = frame_key r).
Proof.
  induction rows as [|a rows IH]; intro seen; simpl.
  - split; [intros x []|]. split; [constructor | intros r []].
  - destruct (existsb (key3_eqb (frame_key a)) seen) eqn:E.
    + apply existsb_key3 in E.
      destruct (IH seen) as (H1 & H2 & H3).
      split; [|split; [exact H2|]].
      * intros x Hx. destruct (H1 x Hx). auto.
      * intros r [<-|Hr]; [now left | now apply H3].
    + assert (Hnot : ~ In (frame_key a) seen).
      { intro Hin. apply existsb_key3 in Hin. congruence. }
      destruct (IH (frame_key a :: seen)) as (H1 & H2 & H3).
      split; [|split].
      * intros x [<-|Hx]; [auto|].
        destruct (H1 x Hx) as [Hin Hns]. split; [now right|].
        intro Hs. apply Hns. now right.
      * simpl. constructor; [|exact H2].
        intro Hin. apply in_map_iff in Hin. destruct Hin as (x & Hk & Hx).
        destruct (H1 x Hx) as [_ Hns]. apply Hns. left. now symmetry.
      * intros r [<-|Hr].
        -- right. exists a. split; [now left | reflexivity].
        -- destruct (H3 r Hr) as [[Hk | Hs] | (x & Hx & Hk)].
           ++ right. exists a. split; [now left | exact Hk].
           ++ now left.
           ++ right. exists x. split; [now right | exact Hk].
Qed.

Lemma get_frame_of_event_spec track_df names arg :
  arg = EventList names \/ arg = EventTuple names
  \/ (exists name, arg = EventStr name /\ names = [name]) ->
  (exists rows,
     get_frame_of_event track_df arg = inr rows
     /\ (forall x, In x rows ->
           exists r e, In r track_df /\ x = event_frame_of r
                       /\ TrackingFrame.event r = Some e /\ In e names)
     /\ NoDup (map frame_key rows)
     /\ (forall r e, In r track_df -> TrackingFrame.event r = Some e ->
                     In e names ->
                     exists x, In x rows
                               /\ frame_key x = frame_key (event_frame_of r)))
  /\ forall type_name,
       get_frame_of_event track_df (EventOther type_name)
       = inl ("Expected event_name input to be of type str, list, or tuple; input was type "
                ++ type_name)%string.
Proof.
  intro Harg. split; [|reflexivity].
  exists (groupby_head1 []
            (map event_frame_of (filter (event_isin names) track_df))).
  split.
  { destruct Harg as [-> | [-> | (name & -> & ->)]]; reflexivity. }
  destruct (groupby_head1_spec
              (map event_frame_of (filter (event_isin names) track_df)) [])
    as (H1 & H2 & H3).
  assert (Hisin : forall r, event_isin names r = true
                            <-> exists e, TrackingFrame.event r = Some e
                                          /\ In e names).
  { intro r. unfold event_isin.
    destruct (TrackingFrame.event r) as [e|].
    - rewrite existsb_exists. split.
      + intros (n & Hn & He). apply String.eqb_eq in He. subst n. eauto.
      + intros (e' & He' & Hin). injection He' as <-.
        exists e. split; [exact Hin | apply String.eqb_refl].
    - split; [discriminate | intros (e & He & _); discriminate]. }
  split; [|split; [exact H2|]].
  - intros x Hx. destruct (H1 x Hx) as [Hin _].
    apply in_map_iff in Hin. destruct Hin as (r & <- & Hr).
    apply filter_In in Hr. destruct Hr as [Hr Hi].
    apply Hisin in Hi. destruct Hi as (e & He & Hn).
    exists r, e. auto.
  - intros r e Hr He Hn.
    destruct (H3 (event_frame_of r)) as [[] | Hx]; [|exact Hx].
    apply in_map. apply filter_In. split; [exact Hr|].
    apply Hisin. eauto.
Qed.

(** X20.  For a list or a tuple of names, or a single name as a str, the frame
    returned holds rows of the input whose event is one of the names, at
    most one per (gameId, playId, frameId), and one for every frame on which
    such an event is labelled.  An argument of any other type gives the
    [TypeError] that names the type. *)
Theorem get_frame_of_event_rows track_df names arg :
  arg = EventList names \/ arg = EventTuple names
  \/ (exists name, arg = EventStr name /\ names = [name]) ->
  (exists rows,
     get_frame_of_event track_df arg = inr rows
     /\ (forall x, In x rows ->
           exists r e, In r track_df /\ x = event_frame_of r
                       /\ TrackingFrame.event r = Some e /\ In e names)
     /\ NoDup (map frame_key rows)
     /\ (forall r e, In r track_df -> TrackingFrame.event r = Some e ->
                     In e names ->
                     exists x, In x rows
                               /\ frame_key x = frame_key (event_frame_of r)))
  /\ forall type_name,
       get_frame_of_event track_df (EventOther type_name)
       = inl ("Expected event_name input to be of type str, list, or tuple; input was type "
                ++ type_name)%string.
Proof.
  exact (get_frame_of_event_spec track_df names arg).
Qed.

Lemma get_frame_of_event_rows_play_56 :
  exists rows,
    get_frame_of_event track_56 (EventStr "first_contact") = inr rows
    /\ (forall x, In x rows ->
          exists r e, In r track_56 /\ x = event_frame_of r
                      /\ TrackingFrame.event r = Some e
                      /\ In e ["first_contact"])
    /\ NoDup (map frame_key rows)
    /\ (forall r e, In r track_56 -> TrackingFrame.event r = Some e ->
                    In e ["first_contact"] ->
                    exists x, In x rows
                              /\ frame_key x = frame_key (event_frame_of r)).
Proof.
  apply (get_frame_of_event_rows track_56 ["first_contact"]
           (EventStr "first_contact")).
  right. right. exists "first_contact". split; reflexivity.
Defined.

(** X21.  The two ways to ask for the tackle agree: on rows that pass the
    single-play check, [util_play_contains_tackle] answers True exactly when
    [get_frame_of_event] finds a "tackle" frame. *)
Theorem play_check_agrees_with_get_frame_of_event track_df b :
  util_play_contains_tackle track_df = Ok b ->
  (b = true
   <-> exists rows x, get_frame_of_event track_df (EventStr "tackle")
                      = inr rows /\ In x rows).
Proof.
  intro Hu.
  destruct (get_frame_of_event_spec track_df ["tackle"] (EventStr "tackle"))
    as ((rows & Hrows & Hsound & _ & Hcomplete) & _).
  { right. right. exists "tackle". split; reflexivity. }
  unfold util_play_contains_tackle in Hu.
  destruct (_ || _)%bool; [discriminate|]. injection Hu as <-.
  rewrite event_filter_pos. split.
  - intros (r & Hr & He).
    destruct (Hcomplete r "tackle" Hr He (or_introl eq_refl)) as (x & Hx & _).
    exists rows, x. auto.
  - intros (rows' & x & Hrows' & Hx).
    assert (rows' = rows) by congruence. subst rows'.
    destruct (Hsound x Hx) as (r & e & Hr & _ & He & [<-|[]]).
    exists r. auto.
Qed.

Lemma play_check_agrees_with_get_frame_of_event_play_56 :
  true = true
  <-> exists rows x, get_frame_of_event track_56 (EventStr "tackle")
                     = inr rows /\ In x rows.
Proof.
  apply (play_check_agrees_with_get_frame_of_event track_56 true).
  reflexivity.
Defined.

(** ** Removing plays and frames *)

Lemma key2_eqb_eq (a b : Z * Z) : key2_eqb a b = true <-> a = b.
Proof.
  destruct a as [a1 a2], b as [b1 b2]. unfold key2_eqb. simpl.
  rewrite andb_true_iff, !Z.eqb_eq. split.
  - intros [-> ->]. reflexivity.
  - intro H. injection H as -> ->. auto.
Qed.

Lemma isin_key2 (k : Z * Z) (l : list (Z * Z)) :
  existsb (key2_eqb k) l = true <-> In k l.
Proof.
  rewrite existsb_exists. split.
  - intros (x & Hx & He). apply key2_eqb_eq in He. now subst.
  - intro H. exists k. split; [exact H | now apply key2_eqb_eq].
Qed.

Lemma filter_idempotent {A : Type} (p : A -> bool) (l : list A) :
  filter p (filter p l) = filter p l.
Proof.
  induction l as [|a l IH]; simpl; [reflexivity|].
  destruct (p a) eqn:E; simpl; [rewrite E, IH|]; auto.
Qed.

Lemma filter_map_commute {A B : Type} (f : A -> B) (p : B -> bool)
  (l : list A) :
  filter p (map f l) = map f (filter (fun a => p (f a)) l).
Proof.
  induction l as [|a l IH]; simpl; [reflexivity|].
  destruct (p (f a)); simpl; now rewrite IH.
Qed.

Lemma filter_commute {A : Type} (p q : A -> bool) (l : list A) :
  filter p (filter q l) = filter q (filter p l).
Proof.
  induction l as [|a l IH]; simpl; [reflexivity|].
  destruct (p a) eqn:P, (q a) eqn:Q'; simpl; rewrite ?P, ?Q', ?IH; auto.
Qed.

Section RemovePlays.

Context {A : Type} `{PlayKeyed A}.

(** X22.  [remove_abnormal_plays] keeps exactly the rows whose (gameId, playId) is
    not listed; it changes nothing when run again or with an empty list, and
    removing two lists in turn is removing their concatenation. *)
Theorem remove_abnormal_plays_rows (nfl_df : list A)
  (bad bad' : list (Z * Z)) :
  (forall r, In r (remove_abnormal_plays nfl_df bad)
             <-> In r nfl_df /\ ~ In (game_of r, play_of r) bad)
  /\ remove_abnormal_plays (remove_abnormal_plays nfl_df bad) bad
     = remove_abnormal_plays nfl_df bad
  /\ remove_abnormal_plays nfl_df [] = nfl_df
  /\ remove_abnormal_plays (remove_abnormal_plays nfl_df bad) bad'
     = remove_abnormal_plays nfl_df (bad ++ bad').
Proof.
  unfold remove_abnormal_plays. split; [|split; [|split]].
  - intro r. rewrite filter_In, negb_true_iff.
    rewrite <- isin_key2.
    destruct (existsb _ bad); split; intros [? ?]; split; auto; congruence.
  - apply filter_idempotent.
  - induction nfl_df as [|a l IH]; [reflexivity|].
    simpl in *. f_equal. exact IH.
  - induction nfl_df as [|a l IH]; simpl; [reflexivity|].
    rewrite existsb_app.
    destruct (existsb _ bad); simpl; [exact IH|].
    destruct (existsb _ bad'); simpl; now rewrite IH.
Qed.

End RemovePlays.

Lemma remove_abnormal_plays_rows_two_plays :
  In (track 56 11 1 50 20 90 None "right")
     (remove_abnormal_plays track_two_plays
        ((2022091100, 101) :: BDB24_BAD_PLAYS))
  /\ ~ In (track 101 11 1 30 25 90 (Some "tackle") "right")
          (remove_abnormal_plays track_two_plays
             ((2022091100, 101) :: BDB24_BAD_PLAYS)).
Proof.
  pose proof (proj1 (remove_abnormal_plays_rows track_two_plays
                       ((2022091100, 101) :: BDB24_BAD_PLAYS) [])) as H.
  split.
  - apply H. split; [simpl; tauto|].
    simpl. intuition discriminate.
  - intro Hin. apply H in Hin. destruct Hin as [_ Hn].
    apply Hn. simpl. tauto.
Defined.

(** X23.  Removing plays and normalizing the direction can be done in either
    order: the transform does not touch gameId or playId. *)
Theorem remove_abnormal_plays_commutes_with_transform df out bad :
  transform_tracking_data df false = (df, Some out) ->
  transform_tracking_data (remove_abnormal_plays df bad) false
  = (remove_abnormal_plays df bad, Some (remove_abnormal_plays out bad)).
Proof.
  unfold transform_tracking_data. intro H. injection H as <-.
  f_equal. f_equal. unfold remove_abnormal_plays.
  rewrite filter_map_commute. f_equal.
  apply filter_ext. intro r. simpl.
  destruct (transform_row_keeps r) as (-> & -> & _). reflexivity.
Qed.

Lemma remove_abnormal_plays_commutes_with_transform_mixed_play :
  transform_tracking_data
    (remove_abnormal_plays track_56_mixed_direction BDB24_BAD_PLAYS) false
  = (remove_abnormal_plays track_56_mixed_direction BDB24_BAD_PLAYS,
     Some (remove_abnormal_plays (map transform_row track_56_mixed_direction)
             BDB24_BAD_PLAYS)).
Proof.
  apply (remove_abnormal_plays_commutes_with_transform
           track_56_mixed_direction).
  reflexivity.
Defined.

(** X24.  [remove_abnormal_frames] keeps exactly the rows whose
    (gameId, playId, frameId) is not listed, and it commutes with
    [remove_abnormal_plays]. *)
Theorem remove_abnormal_frames_rows track_df bad_frames bad_plays :
  (forall r, In r (remove_abnormal_frames track_df bad_frames)
             <-> In r track_df
                 /\ ~ In (TrackingFrame.gameId r, TrackingFrame.playId r,
                          TrackingFrame.frameId r) bad_frames)
  /\ remove_abnormal_frames (remove_abnormal_plays track_df bad_plays)
       bad_frames
     = remove_abnormal_plays (remove_abnormal_frames track_df bad_frames)
         bad_plays.
Proof.
  unfold remove_abnormal_frames, remove_abnormal_plays. split.
  - intro r. rewrite filter_In, negb_true_iff, <- existsb_key3.
    destruct (existsb _ bad_frames); split; intros [? ?]; split; auto;
      congruence.
  - apply filter_commute.
Qed.

Lemma remove_abnormal_frames_rows_play_56 :
  In (carrier_56 2) (remove_abnormal_frames track_56 [(2022091100, 56, 3)])
  /\ ~ In (carrier_56 3)
          (remove_abnormal_frames track_56 [(2022091100, 56, 3)]).
Proof.
  pose proof (proj1 (remove_abnormal_frames_rows track_56
                       [(2022091100, 56, 3)] [])) as H.
  split.
  - apply H. split; [simpl; tauto|].
    simpl. intuition discriminate.
  - intro Hin. apply H in Hin. destruct Hin as [_ Hn].
    apply Hn. simpl. tauto.
Defined.

(** ** When the builder's series is well formed *)

Lemma flat_map_increasing {A B : Type} (key : A -> Z) (key' : B -> Z)
  (f : A -> list B) (l : list A) :
  StronglySorted Z.lt (map key l) ->
  (forall a, In a l ->
             (List.length (f a) <= 1)%nat
             /\ forall b, In b (f a) -> key' b = key a) ->
  StronglySorted Z.lt (map key' (flat_map f l)).
Proof.
  induction l as [|a l IH]; simpl; intros Hs Hf; [constructor|].
  inversion Hs as [|? ? Hs' Hall]; subst.
  assert (IH' : StronglySorted Z.lt (map key' (flat_map f l))).
  { apply IH; [exact Hs'|]. intros a' Ha'. apply Hf. now right. }
  destruct (Hf a (or_introl eq_refl)) as [Hlen Hkey].
  destruct (f a) as [|b [|b' t]]; simpl in *; [exact IH'| |lia].
  constructor; [exact IH'|].
  apply Forall_forall. intros k Hk.
  apply in_map_iff in Hk. destruct Hk as (b2 & <- & Hb2).
  apply in_flat_map in Hb2. destruct Hb2 as (a2 & Ha2 & Hb2).
  destruct (Hf a2 (or_intror Ha2)) as [_ Hkey2].
  rewrite (Hkey b (or_introl eq_refl)), (Hkey2 b2 Hb2).
  rewrite Forall_forall in Hall. apply Hall. now apply in_map.
Qed.

Lemma flat_map_select {A B : Type} (q : A -> bool) (f : A -> list B)
  (l : list A) :
  (forall a, In a l -> q a = false -> f a = []) ->
  flat_map f l = flat_map f (filter q l).
Proof.
  induction l as [|a l IH]; simpl; intro H; [reflexivity|].
  rewrite IH by (intros a' Ha'; apply H; now right).
  destruct (q a) eqn:E; simpl; [reflexivity|].
  rewrite (H a (or_introl eq_refl) E). reflexivity.
Qed.

Lemma filter_at_most_one {A K : Type} (k : A -> K) (sel : A -> bool)
  (l : list A) :
  NoDup (map k l) ->
  (forall x y, In x l -> In y l -> sel x = true -> sel y = true ->
               k x = k y) ->
  (List.length (filter sel l) <= 1)%nat.
Proof.
  induction l as [|a l IH]; simpl; intros Hnd Hk; [lia|].
  inversion Hnd as [|? ? Hnotin Hnd']; subst.
  assert (IH' : (List.length (filter sel l) <= 1)%nat).
  { apply IH; [exact Hnd'|]. intros x y Hx Hy. apply Hk; now right. }
  destruct (sel a) eqn:E; [|exact IH'].
  replace (filter sel l) with (@nil A); [simpl; lia|].
  symmetry. apply filter_nil_iff. intros y Hy.
  destruct (sel y) eqn:Ey; [|reflexivity].
  exfalso. apply Hnotin.
  rewrite (Hk a y (or_introl eq_refl) (or_intror Hy) E Ey).
  now apply in_map.
Qed.

Lemma increasing_NoDup (l : list Z) : StronglySorted Z.lt l -> NoDup l.
Proof.
  induction 1 as [|a l _ IH Hall]; constructor; [|exact IH].
  intro Hin. rewrite Forall_forall in Hall. specialize (Hall a Hin). lia.
Qed.

(** The tracking rows selected by an inner merge with a table that has at
    most one row per play are the rows of one player, in their order. *)
Lemma merge_with_play_table_increasing {B : Type} (gk pk nk : B -> Z)
  (game_id play_id : Z) (track_df : list TrackingFrame.t) (table : list B) :
  (forall r, In r track_df ->
             TrackingFrame.gameId r = game_id
             /\ TrackingFrame.playId r = play_id) ->
  NoDup (map (fun b => (gk b, pk b)) table) ->
  (forall n, Sorted Z.lt
               (map TrackingFrame.frameId
                    (filter (fun r => TrackingFrame.nflId r =? n)
                            track_df))) ->
  StronglySorted Z.lt
    (map TrackingFrame.frameId
         (merge_inner
            (fun r b => (TrackingFrame.gameId r =? gk b)
                        && (TrackingFrame.playId r =? pk b)
                        && (TrackingFrame.nflId r =? nk b))
            (fun r _ => r) track_df table)).
Proof.
  intros Hplay Hnd Hord. unfold merge_inner.
  pose (on := fun (r : TrackingFrame.t) (b : B) =>
                (TrackingFrame.gameId r =? gk b)
                && (TrackingFrame.playId r =? pk b)
                && (TrackingFrame.nflId r =? nk b)).
  pose (f := fun r : TrackingFrame.t =>
               map (fun _ : B => r) (filter (on r) table)).
  pose (ofplay := fun b : B => (game_id =? gk b) && (play_id =? pk b)).
  change (StronglySorted Z.lt
            (map TrackingFrame.frameId (flat_map f track_df))).
  assert (Hone : (List.length (filter ofplay table) <= 1)%nat).
  { apply (filter_at_most_one (fun b => (gk b, pk b))); [exact Hnd|].
    intros x y _ _ Hx Hy. unfold ofplay in Hx, Hy.
    rewrite andb_true_iff, !Z.eqb_eq in Hx, Hy.
    destruct Hx as [<- <-], Hy as [<- <-]. reflexivity. }
  assert (Hsub : forall r b, In r track_df -> In b table ->
                             on r b = true ->
                             In b (filter ofplay table)
                             /\ TrackingFrame.nflId r = nk b).
  { intros r b Hr Hb Hon. unfold on in Hon.
    rewrite !andb_true_iff, !Z.eqb_eq in Hon.
    destruct (Hplay r Hr) as [Hg Hp].
    split; [|tauto]. apply filter_In. split; [exact Hb|].
    unfold ofplay. rewrite andb_true_iff, !Z.eqb_eq.
    split; [rewrite <- Hg | rewrite <- Hp]; tauto. }
  assert (Hlen : forall r, In r track_df ->
                           (List.length (f r) <= 1)%nat
                           /\ forall r', In r' (f r) ->
                                TrackingFrame.frameId r'
                                = TrackingFrame.frameId r).
  { intros r Hr. unfold f. rewrite length_map. split.
    - apply (filter_at_most_one (fun b => (gk b, pk b))); [exact Hnd|].
      intros x y Hx Hy Ox Oy. unfold on in Ox, Oy.
      rewrite !andb_true_iff, !Z.eqb_eq in Ox, Oy.
      destruct Ox as [[<- <-] _], Oy as [[<- <-] _]. reflexivity.
    - intros r' Hr'. apply in_map_iff in Hr'.
      destruct Hr' as (b & <- & _). reflexivity. }
  destruct (filter ofplay table) as [|b0 [|b1 t]] eqn:F;
    simpl in Hone; [| |lia].
  - replace (flat_map f track_df) with (@nil TrackingFrame.t);
      [simpl; constructor|].
    symmetry. rewrite (flat_map_select (fun _ => false) f).
    + replace (filter (fun _ : TrackingFrame.t => false) track_df)
        with (@nil TrackingFrame.t); [reflexivity|].
      symmetry. apply filter_nil_iff. reflexivity.
    + intros r Hr _. unfold f.
      replace (filter (on r) table) with (@nil B); [reflexivity|].
      symmetry. apply filter_nil_iff. intros b Hb.
      destruct (on r b) eqn:E; [|reflexivity].
      destruct (Hsub r b Hr Hb E) as [[] _].
  - rewrite (flat_map_select
               (fun r => TrackingFrame.nflId r =? nk b0) f).
    + apply (flat_map_increasing TrackingFrame.frameId).
      * apply Sorted_StronglySorted; [intros a b c; lia | apply Hord].
      * intros r Hr. apply filter_In in Hr. apply Hlen. tauto.
    + intros r Hr Hq. unfold f.
      replace (filter (on r) table) with (@nil B); [reflexivity|].
      symmetry. apply filter_nil_iff. intros b Hb.
      destruct (on r b) eqn:E; [|reflexivity].
      destruct (Hsub r b Hr Hb E) as [[<-|[]] Hn].
      apply Z.eqb_neq in Hq. contradiction.
Qed.

(** With one roster row per player the left merge keeps the rows as they
    are. *)
Lemma add_player_weight_increasing df player_df :
  NoDup (map PlayerRoster.nflId player_df) ->
  StronglySorted Z.lt (map TrackingFrame.frameId df) ->
  StronglySorted Z.lt
    (map (fun rw => TrackingFrame.frameId (fst rw))
         (add_player_weight df player_df)).
Proof.
  intros Hnd Hs. unfold add_player_weight, merge_left.
  apply (flat_map_increasing TrackingFrame.frameId); [exact Hs|].
  intros r _.
  assert (Hone : (List.length
                    (filter (fun p => (TrackingFrame.nflId r
                                       =? PlayerRoster.nflId p)%Z) player_df)
                  <= 1)%nat).
  { apply (filter_at_most_one PlayerRoster.nflId); [exact Hnd|].
    intros x y _ _ Hx Hy. apply Z.eqb_eq in Hx, Hy. congruence. }
  destruct (filter _ player_df) as [|m ms]; simpl in *.
  - split; [lia|]. intros b [<-|[]]. reflexivity.
  - rewrite length_map. split; [lia|].
    intros b [<-|Hb]; [reflexivity|].
    apply in_map_iff in Hb. destruct Hb as (m' & <- & _). reflexivity.
Qed.

Section BuilderWellFormed.

Variable np_sqrt : Q -> Q.
Variable np_sin_deg : Q -> Q.

Lemma outcome_row_frame bc t :
  GapSample.frameId (outcome_row np_sqrt np_sin_deg bc t)
  = TrackingFrame.frameId (fst bc).
Proof. destruct bc, t. reflexivity. Qed.

(** X13.  On clean inputs for one play the series the builder returns is a gap
    series of the data model, one row per frame in increasing frame order;
    so a record of [prep_get_tackle_metrics] has its contact frame strictly
    before its tackle frame. *)
Theorem builder_series_is_well_formed game_id play_id track_df play_df
  tackle_df player_df :
  clean_play_inputs game_id play_id track_df play_df tackle_df player_df ->
  (forall series,
     _get_tackle_components_vs_time np_sqrt np_sin_deg track_df play_df
       tackle_df player_df = Ok series ->
     gap_series_wf series)
  /\ (forall rec,
        prep_get_tackle_metrics np_sqrt np_sin_deg track_df play_df
          tackle_df player_df = Ok rec ->
        TackleMetrics.contactFrameId rec < TackleMetrics.tackleFrameId rec
        /\ 0 < TackleMetrics.frames rec).
Proof.
  intros (Hplay & Hnd_play & Hnd_tackle & Hnd_roster & Hord).
  assert (Hwf : forall series,
     _get_tackle_components_vs_time np_sqrt np_sin_deg track_df play_df
       tackle_df player_df = Ok series ->
     gap_series_wf series).
  { intros series H.
    unfold _get_tackle_components_vs_time in H.
    bind_inv H.
    destruct (negb _); [discriminate|]. injection H as <-.
    pose proof (add_player_weight_increasing _ player_df Hnd_roster
                  (merge_with_play_table_increasing
                     PlayMetadata.gameId PlayMetadata.playId
                     PlayMetadata.ballCarrierId game_id play_id track_df
                     play_df Hplay Hnd_play Hord)) as Hbc.
    pose proof (add_player_weight_increasing _ player_df Hnd_roster
                  (merge_with_play_table_increasing
                     TackleAttribution.gameId TackleAttribution.playId
                     TackleAttribution.nflId game_id play_id track_df
                     (filter (fun k => TackleAttribution.tackle k =? 1)
                             tackle_df)
                     Hplay Hnd_tackle Hord)) as Htk.
    apply increasing_frames_wf. apply StronglySorted_Sorted.
    unfold merge_inner at 1.
    apply (flat_map_increasing
             (fun rw : TrackingFrame.t * npfloat =>
                TrackingFrame.frameId (fst rw))); [exact Hbc|].
    intros bc _. rewrite length_map. split.
    - apply (filter_at_most_one
               (fun rw : TrackingFrame.t * npfloat =>
                  TrackingFrame.frameId (fst rw))).
      + apply increasing_NoDup. exact Htk.
      + intros x y _ _ Hx Hy.
        rewrite !andb_true_iff, !Z.eqb_eq in Hx, Hy.
        destruct Hx as [_ <-], Hy as [_ <-]. reflexivity.
    - intros s Hs. apply in_map_iff in Hs. destruct Hs as (t & <- & _).
      apply outcome_row_frame. }
  split; [exact Hwf|].
  intros rec H. unfold prep_get_tackle_metrics in H.
  destruct (_get_tackle_components_vs_time np_sqrt np_sin_deg track_df
              play_df tackle_df player_df) as [series|e] eqn:B;
    cbn [bind] in H; [|discriminate].
  destruct (tackle_metrics_of_inv _ _ _ H) as (w & Hw & Hc & Ht & Hf & _).
  pose proof (detector_contact_before_tackle _ _ (Hwf series eq_refl) Hw).
  rewrite Hc, Ht, Hf. lia.
Qed.

End BuilderWellFormed.

Lemma track_56_clean :
  clean_play_inputs 2022091100 56 track_56 plays_example tackles_example
    players_example.
Proof.
  unfold clean_play_inputs. split; [|split; [|split; [|split]]].
  - intros r Hr. simpl in Hr.
    repeat (destruct Hr as [<-|Hr]; [split; reflexivity|]). contradiction.
  - simpl. repeat constructor; simpl; intuition discriminate.
  - simpl. repeat constructor; simpl; intuition discriminate.
  - simpl. repeat constructor; simpl; intuition discriminate.
  - intro n. unfold track_56, tackler_56.
    cbn [map app carrier_56 filter track TrackingFrame.nflId].
    destruct (11 =? n) eqn:E1; destruct (22 =? n) eqn:E2;
      try (apply Z.eqb_eq in E1; apply Z.eqb_eq in E2; lia);
      simpl; repeat constructor.
Qed.

Lemma builder_series_is_well_formed_play_56 :
  match _get_tackle_components_vs_time approx_sqrt approx_sin_deg track_56
          plays_example tackles_example players_example with
  | Ok series => gap_series_wf series
  | Raise _ => False
  end
  /\ match prep_get_tackle_metrics approx_sqrt approx_sin_deg track_56
             plays_example tackles_example players_example with
     | Ok rec =>
         TackleMetrics.contactFrameId rec < TackleMetrics.tackleFrameId rec
         /\ 0 < TackleMetrics.frames rec
     | Raise _ => False
     end.
Proof.
  destruct (builder_series_is_well_formed approx_sqrt approx_sin_deg
              2022091100 56 track_56 plays_example tackles_example
              players_example track_56_clean) as [Hs Hr].
  split.
  - destruct (_get_tackle_components_vs_time approx_sqrt approx_sin_deg
                track_56 plays_example tackles_example players_example)
      as [series|e] eqn:E.
    + exact (Hs series eq_refl).
    + vm_compute in E. discriminate E.
  - destruct (prep_get_tackle_metrics approx_sqrt approx_sin_deg track_56
                plays_example tackles_example players_example)
      as [rec|e] eqn:E.
    + exact (Hr rec eq_refl).
    + vm_compute in E. discriminate E.
Defined.
